(** * CloudStream: upload staging and the in-memory file catalog

    A shallow embedding of the TypeScript sources

    - [contexts/FileContext]  (the catalog: [addFile], [removeFile], [getFile]),
    - [pages/UploadPage]      ([getFileType], [handleFiles], [simulateUpload],
                               [removeFile]),
    - [pages/FilesPage]       ([filteredFiles], [deleteFile]),

    followed by the properties of the ingestion state machine and of the
    catalog that the specification states.

    Conventions of the model.
    - A JS array is a [list]; a React state cell is a field of [World], and a
      functional updater [setX(prev => e)] is the assignment of [e] to it.
    - [File.size] is a non-negative integer ([N]).  [progress] is a JS number;
      it is taken as a rational ([Q]): comparisons and [Math.min] are exact on
      it, sums and products are not rounded as those of the code are.
    - The platform is an input: the values of [Math.random()], of [new Date()]
      and the moment at which a timer fires or a button is pressed are carried
      by the [Event] that is processed.
    - [setInterval] and [URL.createObjectURL] hand out fresh handles; they are
      numbered by a counter kept in [World]. *)

From Stdlib Require Import String Ascii List Bool Arith NArith ZArith QArith Qminmax
  Lia Lqa.
Import ListNotations.

Local Close Scope Q_scope.
Local Open Scope nat_scope.
Local Open Scope string_scope.

(* ================================================================= *)
(** * JS string built-ins *)

Module JsString.

(** [s.startsWith(p)] *)
Definition startsWith (s p : string) : bool := String.prefix p s.

(** [s.includes(t)]: [t] occurs in [s] at some position. *)
Fixpoint includes (s t : string) : bool :=
  startsWith s t ||
  match s with
  | EmptyString => false
  | String _ s' => includes s' t
  end.

(** ASCII letters are lowered, every other code unit is left alone. *)
Definition lowerAscii (c : ascii) : ascii :=
  let n := nat_of_ascii c in
  if ((65 <=? n) && (n <=? 90))%nat then ascii_of_nat (n + 32) else c.

Fixpoint asciiLower (s : string) : string :=
  match s with
  | EmptyString => EmptyString
  | String c s' => String (lowerAscii c) (asciiLower s')
  end.

End JsString.

(* ================================================================= *)
(** * Data model *)

(** [CloudFile['type']]: ['video' | 'audio' | 'pdf']. *)
Inductive FileKind : Type := video | audio | pdf.

Definition FileKind_eqb (a b : FileKind) : bool :=
  match a, b with
  | video, video | audio, audio | pdf, pdf => true
  | _, _ => false
  end.

(** The platform's [File]: the fields the code reads. *)
Module File.
Record t : Type := mk { name : string; type : string; size : N }.
End File.

(** A blob URL is opaque; it is identified by the serial number of the
    [URL.createObjectURL] call that minted it. *)
Definition ObjectURL : Type := nat.

(** [interface CloudFile] of FileContext. *)
Module CloudFile.
Record t : Type := mk {
  id : string;
  name : string;
  type : FileKind;
  size : N;
  url : ObjectURL;
  uploadDate : N;
  thumbnail : option string
}.
End CloudFile.

(* ================================================================= *)
(** * FileContext: the catalog *)

Module FileContext.

(** [setFiles(prev => [...prev, file])] *)
Definition addFile (prev : list CloudFile.t) (file : CloudFile.t)
  : list CloudFile.t :=
  prev ++ [file].

(** [setFiles(prev => prev.filter(file => file.id !== id))] *)
Definition removeFile (prev : list CloudFile.t) (id : string)
  : list CloudFile.t :=
  filter (fun file => negb (String.eqb (CloudFile.id file) id)) prev.

(** [files.find(file => file.id === id)] *)
Definition getFile (files : list CloudFile.t) (id : string)
  : option CloudFile.t :=
  find (fun file => String.eqb (CloudFile.id file) id) files.

(** Number of catalog entries carrying [id]. *)
Definition countId (files : list CloudFile.t) (id : string) : nat :=
  length (filter (fun file => String.eqb (CloudFile.id file) id) files).

End FileContext.

(* ================================================================= *)
(** * The page state and the platform *)

(** [UploadingFile['status']] *)
Inductive Status : Type := uploading | completed | error.

(** [interface UploadingFile] of UploadPage. *)
Module UploadingFile.
Record t : Type := mk {
  file : File.t;
  progress : Q;
  status : Status;
  id : string
}.
End UploadingFile.

(** The calls to [toast], by title, with the file name they mention. *)
Inductive Toast : Type :=
| UnsupportedFileType (name : string)
| FileTooLarge (name : string)
| UploadComplete (name : string)
| FileDeleted (name : string).

(** Everything the three components read and write.
    - [uploadingFiles]: the state cell of UploadPage;
    - [files]: the state cell of FileProvider;
    - [intervals]: the timers that are set and not cleared, each with the
      [id] of the [uploadingFile] its callback closes over;
    - [objectURLs]: the blob URLs that are created and not revoked;
    - [revoked]: the arguments of the [URL.revokeObjectURL] calls, oldest
      first;
    - [toasts]: the notifications shown, oldest first. *)
Record World : Type := mkWorld {
  uploadingFiles : list UploadingFile.t;
  files : list CloudFile.t;
  intervals : list (nat * string);
  nextInterval : nat;
  objectURLs : list ObjectURL;
  nextObjectURL : nat;
  revoked : list ObjectURL;
  toasts : list Toast
}.

Definition init : World :=
  {| uploadingFiles := []; files := []; intervals := []; nextInterval := 0;
     objectURLs := []; nextObjectURL := 0; revoked := []; toasts := [] |}.

(** Code that reads and writes the [World] and returns a value. *)
Definition M (A : Type) : Type := World -> A * World.

Definition ret {A : Type} (a : A) : M A := fun w => (a, w).

Definition bind {A B : Type} (m : M A) (k : A -> M B) : M B :=
  fun w => let (a, w') := m w in k a w'.

Notation "x <- m ;; k" := (bind m (fun x => k))
  (at level 61, m at next level, right associativity).
Notation "m ;;; k" := (bind m (fun _ => k))
  (at level 61, right associativity).

Definition exec {A : Type} (m : M A) (w : World) : World := snd (m w).

Module Platform.

(** [setUploadingFiles(prev => f prev)] *)
Definition setUploadingFiles
  (f : list UploadingFile.t -> list UploadingFile.t) : M unit :=
  fun w =>
    (tt, {| uploadingFiles := f (uploadingFiles w); files := files w;
            intervals := intervals w; nextInterval := nextInterval w;
            objectURLs := objectURLs w; nextObjectURL := nextObjectURL w;
            revoked := revoked w; toasts := toasts w |}).

(** [setFiles(prev => f prev)] *)
Definition setFiles (f : list CloudFile.t -> list CloudFile.t) : M unit :=
  fun w =>
    (tt, {| uploadingFiles := uploadingFiles w; files := f (files w);
            intervals := intervals w; nextInterval := nextInterval w;
            objectURLs := objectURLs w; nextObjectURL := nextObjectURL w;
            revoked := revoked w; toasts := toasts w |}).

(** [setInterval(callback, delay)], the callback closing over the entry
    with the given [id]; returns the new handle. *)
Definition setInterval (id : string) : M nat :=
  fun w =>
    (nextInterval w,
     {| uploadingFiles := uploadingFiles w; files := files w;
        intervals := intervals w ++ [(nextInterval w, id)];
        nextInterval := S (nextInterval w);
        objectURLs := objectURLs w; nextObjectURL := nextObjectURL w;
        revoked := revoked w; toasts := toasts w |}).

(** [clearInterval(interval)] *)
Definition clearInterval (interval : nat) : M unit :=
  fun w =>
    (tt, {| uploadingFiles := uploadingFiles w; files := files w;
            intervals :=
              filter (fun t => negb (Nat.eqb (fst t) interval)) (intervals w);
            nextInterval := nextInterval w;
            objectURLs := objectURLs w; nextObjectURL := nextObjectURL w;
            revoked := revoked w; toasts := toasts w |}).

(** [URL.createObjectURL(file)] *)
Definition createObjectURL (file : File.t) : M ObjectURL :=
  fun w =>
    (nextObjectURL w,
     {| uploadingFiles := uploadingFiles w; files := files w;
        intervals := intervals w; nextInterval := nextInterval w;
        objectURLs := objectURLs w ++ [nextObjectURL w];
        nextObjectURL := S (nextObjectURL w);
        revoked := revoked w; toasts := toasts w |}).

(** [URL.revokeObjectURL(url)]; revoking a URL that is not registered
    changes nothing in the registry. *)
Definition revokeObjectURL (url : ObjectURL) : M unit :=
  fun w =>
    (tt, {| uploadingFiles := uploadingFiles w; files := files w;
            intervals := intervals w; nextInterval := nextInterval w;
            objectURLs := filter (fun u => negb (Nat.eqb u url)) (objectURLs w);
            nextObjectURL := nextObjectURL w;
            revoked := revoked w ++ [url]; toasts := toasts w |}).

(** [toast({ title, description })] *)
Definition toast (t : Toast) : M unit :=
  fun w =>
    (tt, {| uploadingFiles := uploadingFiles w; files := files w;
            intervals := intervals w; nextInterval := nextInterval w;
            objectURLs := objectURLs w; nextObjectURL := nextObjectURL w;
            revoked := revoked w; toasts := toasts w ++ [t] |}).

(** The entry id a live timer closes over. *)
Fixpoint target (interval : nat) (ts : list (nat * string)) : option string :=
  match ts with
  | [] => None
  | (h, id) :: ts' => if Nat.eqb h interval then Some id else target interval ts'
  end.

End Platform.

(* ================================================================= *)
(** * UploadPage *)

Module UploadPage.
Import Platform.

(** [getFileType(file)]; [None] is the source's [null]. *)
Definition getFileType (file : File.t) : option FileKind :=
  if JsString.startsWith (File.type file) "video/" then Some video
  else if JsString.startsWith (File.type file) "audio/" then Some audio
  else if String.eqb (File.type file) "application/pdf" then Some pdf
  else None.

(** The size limit of [handleFiles]: [50 * 1024 * 1024]. *)
Definition maxSize : N := 50 * 1024 * 1024.

(** The callback of [fileArray.filter] in [handleFiles]. *)
Definition validFile (file : File.t) : M bool :=
  match getFileType file with
  | None =>
      toast (UnsupportedFileType (File.name file)) ;;;
      ret false
  | Some _ =>
      if (maxSize <? File.size file)%N then
        toast (FileTooLarge (File.name file)) ;;;
        ret false
      else ret true
  end.

(** [fileArray.filter(validFile)], the callback run on each element in
    order. *)
Fixpoint validFiles (fileArray : list File.t) : M (list File.t) :=
  match fileArray with
  | [] => ret []
  | file :: rest =>
      keep <- validFile file ;;
      rest' <- validFiles rest ;;
      ret (if keep then file :: rest' else rest')
  end.

(** [validFiles.map(file => ({ file, progress: 0, status: 'uploading',
    id: Math.random().toString(36).substr(2, 9) }))]; the strings drawn
    are [ids], in order (the empty string, which a draw of [0] gives, when
    [ids] is too short). *)
Fixpoint newUploadingFiles (valid : list File.t) (ids : list string)
  : list UploadingFile.t :=
  match valid with
  | [] => []
  | file :: rest =>
      {| UploadingFile.file := file; UploadingFile.progress := 0%Q;
         UploadingFile.status := uploading;
         UploadingFile.id := hd "" ids |}
      :: newUploadingFiles rest (tl ids)
  end.

(** The body of the [prev.map] callback of [simulateUpload] for an entry
    whose [id] is the one of the timer: [interval] is the timer's own
    handle, [r] the value of [Math.random()], [now] of [new Date()]. *)
Definition advance (interval : nat) (now : N) (r : Q) (uf : UploadingFile.t)
  : M UploadingFile.t :=
  let newProgress := Qmin (UploadingFile.progress uf + r * 15)%Q 100%Q in
  if Qle_bool 100 newProgress then
    clearInterval interval ;;;
    fileUrl <- createObjectURL (UploadingFile.file uf) ;;
    match getFileType (UploadingFile.file uf) with
    | Some fileType =>
        setFiles (fun prev =>
          FileContext.addFile prev
            {| CloudFile.id := UploadingFile.id uf;
               CloudFile.name := File.name (UploadingFile.file uf);
               CloudFile.type := fileType;
               CloudFile.size := File.size (UploadingFile.file uf);
               CloudFile.url := fileUrl;
               CloudFile.uploadDate := now;
               CloudFile.thumbnail := None |}) ;;;
        toast (UploadComplete (File.name (UploadingFile.file uf)))
    | None => ret tt
    end ;;;
    ret {| UploadingFile.file := UploadingFile.file uf;
           UploadingFile.progress := 100%Q;
           UploadingFile.status := completed;
           UploadingFile.id := UploadingFile.id uf |}
  else
    ret {| UploadingFile.file := UploadingFile.file uf;
           UploadingFile.progress := newProgress;
           UploadingFile.status := UploadingFile.status uf;
           UploadingFile.id := UploadingFile.id uf |}.

(** [prev.map(uf => uf.id === uploadingFile.id ? advance uf : uf)]; each
    matching entry consumes one value of [Math.random()] from [rnd] ([0]
    when [rnd] is exhausted). *)
Fixpoint mapTick (interval : nat) (id : string) (now : N) (rnd : list Q)
  (prev : list UploadingFile.t) : M (list UploadingFile.t) :=
  match prev with
  | [] => ret []
  | uf :: rest =>
      if String.eqb (UploadingFile.id uf) id then
        uf' <- advance interval now (hd 0%Q rnd) uf ;;
        rest' <- mapTick interval id now (tl rnd) rest ;;
        ret (uf' :: rest')
      else
        rest' <- mapTick interval id now rnd rest ;;
        ret (uf :: rest')
  end.

(** One firing of the timer set by [simulateUpload(uploadingFile)] with
    [uploadingFile.id = id]. *)
Definition tick (interval : nat) (id : string) (now : N) (rnd : list Q)
  : M unit :=
  fun w =>
    let (next, w') := mapTick interval id now rnd (uploadingFiles w) w in
    setUploadingFiles (fun _ => next) w'.

(** [simulateUpload(uploadingFile)] *)
Definition simulateUpload (uploadingFile : UploadingFile.t) : M unit :=
  setInterval (UploadingFile.id uploadingFile) ;;; ret tt.

(** [array.forEach(f)] *)
Fixpoint forEach {A : Type} (f : A -> M unit) (l : list A) : M unit :=
  match l with
  | [] => ret tt
  | a :: l' => f a ;;; forEach f l'
  end.

(** [handleFiles(files)] *)
Definition handleFiles (files : list File.t) (ids : list string) : M unit :=
  valid <- validFiles files ;;
  let new := newUploadingFiles valid ids in
  setUploadingFiles (fun prev => (prev ++ new)%list) ;;;
  forEach simulateUpload new.

(** [removeFile(id)] of UploadPage: the cross button of a progress row. *)
Definition removeFile (id : string) : M unit :=
  setUploadingFiles
    (filter (fun uf => negb (String.eqb (UploadingFile.id uf) id))).

(** [handleDrop(e)]: [handleFiles(e.dataTransfer.files)]. *)
Definition handleDrop (files : list File.t) (ids : list string) : M unit :=
  handleFiles files ids.

(** [handleFileInput(e)]: [e.target.files] may be [null]. *)
Definition handleFileInput (files : option (list File.t)) (ids : list string)
  : M unit :=
  match files with
  | Some fs => handleFiles fs ids
  | None => ret tt
  end.

(** [uploadingFiles.filter(f => f.status === 'completed').length], the count
    shown in the header of the progress card. *)
Definition completedCount (uploadingFiles : list UploadingFile.t) : nat :=
  length (filter (fun f => match UploadingFile.status f with
                           | completed => true
                           | _ => false
                           end) uploadingFiles).

End UploadPage.

(* ================================================================= *)
(** * FilesPage *)

(** [type FilterType = 'all' | 'video' | 'audio' | 'pdf'] *)
Inductive FilterType : Type := all | only (k : FileKind).

Module FilesPage.
Import Platform.

Section Query.

(** [String.prototype.toLowerCase] *)
Variable toLowerCase : string -> string.

Definition matchesSearch (searchTerm : string) (file : CloudFile.t) : bool :=
  JsString.includes (toLowerCase (CloudFile.name file))
                    (toLowerCase searchTerm).

Definition matchesFilter (filterType : FilterType) (file : CloudFile.t)
  : bool :=
  match filterType with
  | all => true
  | only k => FileKind_eqb (CloudFile.type file) k
  end.

(** [files.filter(file => matchesSearch && matchesFilter)] *)
Definition filteredFiles (files : list CloudFile.t) (searchTerm : string)
  (filterType : FilterType) : list CloudFile.t :=
  filter (fun file =>
            matchesSearch searchTerm file && matchesFilter filterType file)
         files.

End Query.

(** [deleteFile(file)] *)
Definition deleteFile (file : CloudFile.t) : M unit :=
  setFiles (fun prev => FileContext.removeFile prev (CloudFile.id file)) ;;;
  revokeObjectURL (CloudFile.url file) ;;;
  toast (FileDeleted (CloudFile.name file)).

(** The state cells [isPlaying] and [isMuted]: objects used as maps from a
    file id to a boolean; [None] is a key that is not set ([undefined]). *)
Definition Flags : Type := string -> option bool.

(** [{}] *)
Definition noFlags : Flags := fun _ => None.

(** What [flags[fileId]] counts as in a condition or a boolean attribute. *)
Definition truthy (v : option bool) : bool :=
  match v with
  | Some true => true
  | _ => false
  end.

(** [{ ...prev, [fileId]: v }] *)
Definition setFlag (prev : Flags) (fileId : string) (v : bool) : Flags :=
  fun k => if String.eqb k fileId then Some v else prev k.

(** [setIsPlaying(prev => ({ ...prev, [fileId]: !prev[fileId] }))] *)
Definition togglePlay (fileId : string) (prev : Flags) : Flags :=
  setFlag prev fileId (negb (truthy (prev fileId))).

(** [setIsMuted(prev => ({ ...prev, [fileId]: !prev[fileId] }))] *)
Definition toggleMute (fileId : string) (prev : Flags) : Flags :=
  setFlag prev fileId (negb (truthy (prev fileId))).

(** [onPlay] and [onPause] of the players. *)
Definition onPlay (fileId : string) (prev : Flags) : Flags :=
  setFlag prev fileId true.

Definition onPause (fileId : string) (prev : Flags) : Flags :=
  setFlag prev fileId false.

(** The two texts under "No files found". *)
Inductive EmptyHint : Type := AdjustCriteria | UploadFirst.

(** What the page shows in place of the grid:
    [filteredFiles.length === 0 ? (searchTerm || filterType !== 'all' ? ... :
    ...) : grid]; [None] is the grid. *)
Definition emptyHint (filteredFiles : list CloudFile.t) (searchTerm : string)
  (filterType : FilterType) : option EmptyHint :=
  match filteredFiles with
  | [] =>
      Some (if negb (String.eqb searchTerm "")
               || match filterType with all => false | only _ => true end
            then AdjustCriteria
            else UploadFirst)
  | _ :: _ => None
  end.

End FilesPage.

(* ================================================================= *)
(** * Dashboard *)

Module Dashboard.

(** The result of [getFileStats()]. *)
Record FileStats : Type := mkStats {
  videoFiles : nat;
  audioFiles : nat;
  pdfFiles : nat;
  totalSize : N
}.

(** [getFileStats()]; the sizes are integers, and [totalSize] is their sum
    as an integer: it is the number the code computes as long as the sum
    stays below 2^53, where the additions of the code round. *)
Definition getFileStats (files : list CloudFile.t) : FileStats :=
  {| videoFiles :=
       length (filter (fun f => FileKind_eqb (CloudFile.type f) video) files);
     audioFiles :=
       length (filter (fun f => FileKind_eqb (CloudFile.type f) audio) files);
     pdfFiles :=
       length (filter (fun f => FileKind_eqb (CloudFile.type f) pdf) files);
     totalSize :=
       fold_left (fun acc f => (acc + CloudFile.size f)%N) files 0%N |}.

(** [files.slice(0, 5)], the rows of the card "Recent Files". *)
Definition recentFiles (files : list CloudFile.t) : list CloudFile.t :=
  firstn 5 files.

(** [files.length > 5], the condition of the button "View All Files". *)
Definition showViewAll (files : list CloudFile.t) : bool :=
  Nat.ltb 5 (length files).

End Dashboard.

(* ================================================================= *)
(** * Sessions *)

(** What can happen to the page, with the values the platform supplies. *)
Inductive Event : Type :=
| HandleFiles (files : list File.t) (ids : list string)
| Tick (interval : nat) (now : N) (rnd : list Q)
| RemoveUploading (id : string)
| DeleteFile (file : CloudFile.t).

(** A cleared timer does not fire: its [Tick] changes nothing. *)
Definition step (w : World) (ev : Event) : World :=
  match ev with
  | HandleFiles fs ids => exec (UploadPage.handleFiles fs ids) w
  | Tick interval now rnd =>
      match Platform.target interval (intervals w) with
      | Some id => exec (UploadPage.tick interval id now rnd) w
      | None => w
      end
  | RemoveUploading id => exec (UploadPage.removeFile id) w
  | DeleteFile file => exec (FilesPage.deleteFile file) w
  end.

Definition run (w : World) (evs : list Event) : World := fold_left step evs w.

(** [Math.random()] lies in [[0, 1)]. *)
Definition isRandom (r : Q) : Prop := (0 <= r)%Q /\ (r < 1)%Q.

(** When an event can happen: a timer fires only while it is set, its draws
    are values of [Math.random()]; a progress row has a cross button and a
    listed file has a delete button. *)
Definition enabled (w : World) (ev : Event) : Prop :=
  match ev with
  | HandleFiles _ _ => True
  | Tick interval _ rnd =>
      Platform.target interval (intervals w) <> None /\ Forall isRandom rnd
  | RemoveUploading id =>
      exists uf, In uf (uploadingFiles w) /\ UploadingFile.id uf = id
  | DeleteFile file => In file (files w)
  end.

(** The worlds a session can be in. *)
Inductive reachable : World -> Prop :=
| reachable_init : reachable init
| reachable_step w ev :
    reachable w -> enabled w ev -> reachable (step w ev).

(* ================================================================= *)
(** * Vocabulary of the statements *)

(** [l'] is [l] with some entries carrying [id] taken out, and nothing else
    touched: every other entry is kept, in place. *)
Inductive DropsOnly (id : string) : list CloudFile.t -> list CloudFile.t -> Prop :=
| DropsOnly_nil : DropsOnly id [] []
| DropsOnly_keep f l l' :
    DropsOnly id l l' -> DropsOnly id (f :: l) (f :: l')
| DropsOnly_drop f l l' :
    CloudFile.id f = id -> DropsOnly id l l' -> DropsOnly id (f :: l) l'.

(** The verdict of [validFile], without its toast. *)
Definition accepts (file : File.t) : bool :=
  match UploadPage.getFileType file with
  | None => false
  | Some _ => negb (UploadPage.maxSize <? File.size file)%N
  end.

(** The ids an event assigns to new staging entries. *)
Definition assigned (ev : Event) : list string :=
  match ev with
  | HandleFiles fs ids =>
      map UploadingFile.id (UploadPage.newUploadingFiles (filter accepts fs) ids)
  | _ => []
  end.

(** What holds of every staging entry of a session: its progress lies in
    [[0, 100]], its status is never ['error'], a completed entry stands at
    exactly 100, and its file passed [getFileType]. *)
Definition stagingOk (uf : UploadingFile.t) : Prop :=
  (0 <= UploadingFile.progress uf)%Q /\
  (UploadingFile.progress uf <= 100)%Q /\
  UploadingFile.status uf <> error /\
  (UploadingFile.status uf = completed -> UploadingFile.progress uf = 100%Q) /\
  UploadPage.getFileType (UploadingFile.file uf) <> None.

(** An entry before and after one firing of a timer. *)
Definition ticked (uf uf' : UploadingFile.t) : Prop :=
  UploadingFile.file uf' = UploadingFile.file uf /\
  UploadingFile.id uf' = UploadingFile.id uf /\
  (UploadingFile.progress uf <= UploadingFile.progress uf')%Q /\
  (UploadingFile.progress uf' <= 100)%Q.

(** [f] is the catalog entry [advance] builds from the staging entry [uf]. *)
Definition inserted (uf : UploadingFile.t) (f : CloudFile.t) : Prop :=
  CloudFile.id f = UploadingFile.id uf /\
  CloudFile.name f = File.name (UploadingFile.file uf) /\
  CloudFile.size f = File.size (UploadingFile.file uf) /\
  Some (CloudFile.type f) = UploadPage.getFileType (UploadingFile.file uf) /\
  CloudFile.thumbnail f = None.

(** Two worlds that differ at most in the toasts shown. *)
Definition sameButToasts (w w' : World) : Prop :=
  uploadingFiles w' = uploadingFiles w /\
  files w' = files w /\
  intervals w' = intervals w /\
  nextInterval w' = nextInterval w /\
  objectURLs w' = objectURLs w /\
  nextObjectURL w' = nextObjectURL w /\
  revoked w' = revoked w.

(** Equality of catalog entries is decidable. *)
Definition CloudFile_eq_dec (f g : CloudFile.t) : {f = g} + {f <> g}.
Proof.
  repeat decide equality; try apply N.eq_dec; try apply string_dec.
Defined.

(** [Math.random()] lies in [[0, 1)], as a test. *)
Definition isRandomb (r : Q) : bool := Qle_bool 0 r && negb (Qle_bool 1 r).

(** [enabled], as a test. *)
Definition enabledb (w : World) (ev : Event) : bool :=
  match ev with
  | HandleFiles _ _ => true
  | Tick interval _ rnd =>
      match Platform.target interval (intervals w) with
      | Some _ => forallb isRandomb rnd
      | None => false
      end
  | RemoveUploading id =>
      existsb (fun uf => String.eqb (UploadingFile.id uf) id) (uploadingFiles w)
  | DeleteFile file =>
      if in_dec CloudFile_eq_dec file (files w) then true else false
  end.

Fixpoint enabledAllb (w : World) (evs : list Event) : bool :=
  match evs with
  | [] => true
  | ev :: evs' => enabledb w ev && enabledAllb (step w ev) evs'
  end.

(** Each event of [evs] can happen when its turn comes. *)
Fixpoint enabledAll (w : World) (evs : list Event) : Prop :=
  match evs with
  | [] => True
  | ev :: evs' => enabled w ev /\ enabledAll (step w ev) evs'
  end.

(** The ids in use are pairwise distinct and were all assigned by
    [handleFiles] ([used]); no catalog entry has the id of a timer that is
    still set. *)
Definition IdsOk (used : list string) (w : World) : Prop :=
  NoDup (map UploadingFile.id (uploadingFiles w)) /\
  incl (map UploadingFile.id (uploadingFiles w)) used /\
  NoDup (map snd (intervals w)) /\
  incl (map snd (intervals w)) used /\
  NoDup (map CloudFile.id (files w)) /\
  incl (map CloudFile.id (files w)) used /\
  (forall f, In f (files w) -> ~ In (CloudFile.id f) (map snd (intervals w))).

(** [clearInterval] on the list of timers. *)
Definition cleared (interval : nat) (ts : list (nat * string))
  : list (nat * string) :=
  filter (fun t => negb (Nat.eqb (fst t) interval)) ts.

(** The invariant of sessions. *)
Record Inv (w : World) : Prop := mkInv {
  inv_staging : Forall stagingOk (uploadingFiles w);
  inv_intervals : Forall (fun t => fst t < nextInterval w) (intervals w);
  inv_live : Forall (fun u => u < nextObjectURL w) (objectURLs w);
  inv_files :
    Forall (fun f => CloudFile.url f < nextObjectURL w /\
                     In (CloudFile.url f) (objectURLs w) /\
                     ~ In (CloudFile.url f) (revoked w)) (files w);
  inv_urls : NoDup (map CloudFile.url (files w));
  inv_revoked : Forall (fun u => u < nextObjectURL w) (revoked w);
  inv_revoked_once : NoDup (revoked w)
}.

(** The toasts [validFile] shows for a file: one when it is rejected, none
    when it is accepted. *)
Definition rejection (file : File.t) : list Toast :=
  match UploadPage.getFileType file with
  | None => [UnsupportedFileType (File.name file)]
  | Some _ =>
      if (UploadPage.maxSize <? File.size file)%N
      then [FileTooLarge (File.name file)]
      else []
  end.

(** The number of timer firings among events. *)
Definition firings (evs : list Event) : nat :=
  length (filter (fun ev => match ev with Tick _ _ _ => true | _ => false end) evs).

(** What a session keeps of the files it validated: every staging entry
    holds an accepted file and is below 100 while it is uploading, and every
    catalog entry has the name, kind and size of an accepted file. *)
Definition Validated (w : World) : Prop :=
  Forall (fun uf => accepts (UploadingFile.file uf) = true /\
                    (UploadingFile.status uf = uploading ->
                     (UploadingFile.progress uf < 100)%Q))
         (uploadingFiles w) /\
  Forall (fun f => exists file,
            accepts file = true /\
            CloudFile.name f = File.name file /\
            CloudFile.size f = File.size file /\
            UploadPage.getFileType file = Some (CloudFile.type f))
         (files w).

(** Every entry that is still uploading has a timer that is set for its id,
    and no two timers share a handle. *)
Definition Driven (w : World) : Prop :=
  NoDup (map fst (intervals w)) /\
  forall uf, In uf (uploadingFiles w) ->
             UploadingFile.status uf = uploading ->
             In (UploadingFile.id uf) (map snd (intervals w)).

(** In a session that has seen [n] firings so far and no completion: every
    staging entry is uploading, at no more than [15 * n], the catalog is
    empty and no blob URL was minted. *)
Definition Young (n : nat) (w : World) : Prop :=
  Forall (fun uf => (UploadingFile.progress uf <= 15 * inject_Z (Z.of_nat n))%Q /\
                    UploadingFile.status uf = uploading)
         (uploadingFiles w) /\
  files w = [] /\ objectURLs w = [].

(** Neither a staging entry nor a catalog entry carries [id]. *)
Definition Gone (id : string) (w : World) : Prop :=
  (forall uf, In uf (uploadingFiles w) -> UploadingFile.id uf <> id) /\
  (forall f, In f (files w) -> CloudFile.id f <> id).

(* ================================================================= *)
(** * Strings *)

Lemma FileKind_eqb_eq a b : FileKind_eqb a b = true <-> a = b.
Proof. destruct a, b; simpl; split; congruence. Qed.


Section JsStringFacts.
Import JsString.

Lemma startsWith_iff s p :
  startsWith s p = true <-> exists rest, s = p ++ rest.
Proof.
  unfold startsWith. revert s.
  induction p as [|c p IH]; intros s; simpl.
  - split; [intros _; now exists s | now destruct s].
  - destruct s as [|d s]; simpl.
    + split; [discriminate | intros [rest H]; discriminate].
    + destruct (ascii_dec c d) as [->|Hne].
      * rewrite IH. split; intros [rest H]; exists rest.
        -- now rewrite H.
        -- now inversion H.
      * split; [discriminate | intros [rest H]; inversion H; congruence].
Qed.

Lemma startsWith_empty s : startsWith s "" = true.
Proof. apply startsWith_iff. now exists s. Qed.

Lemma includes_empty s : includes s "" = true.
Proof. destruct s; simpl; now rewrite ?startsWith_empty. Qed.

Lemma includes_iff s t :
  includes s t = true <-> exists before after, s = before ++ t ++ after.
Proof.
  induction s as [|c s IH]; cbn [includes].
  - rewrite orb_false_r, startsWith_iff. split.
    + intros [rest H]. now exists "", rest.
    + intros [before [after H]]. destruct before; simpl in H.
      * now exists after.
      * discriminate.
  - rewrite orb_true_iff, IH, startsWith_iff. split.
    + intros [[rest H]|[before [after H]]].
      * now exists "", rest.
      * exists (String c before), after. simpl. now rewrite H.
    + intros [before [after H]]. destruct before as [|d before]; simpl in H.
      * left. now exists after.
      * right. inversion H. now exists before, after.
Qed.

End JsStringFacts.

(* ================================================================= *)
(** * Classification and validation *)

Section Validation.
Import UploadPage Platform.

Lemma getFileType_video file rest :
  File.type file = "video/" ++ rest -> getFileType file = Some video.
Proof.
  intros H. unfold getFileType.
  replace (JsString.startsWith (File.type file) "video/") with true; [easy|].
  symmetry. apply startsWith_iff. now exists rest.
Qed.

Lemma getFileType_audio file rest :
  File.type file = "audio/" ++ rest -> getFileType file = Some audio.
Proof.
  intros H. unfold getFileType.
  destruct (JsString.startsWith (File.type file) "video/") eqn:Ev.
  { apply startsWith_iff in Ev. destruct Ev as [rest' Ev].
    rewrite H in Ev. discriminate Ev. }
  replace (JsString.startsWith (File.type file) "audio/") with true; [easy|].
  symmetry. apply startsWith_iff. now exists rest.
Qed.

Lemma getFileType_pdf file :
  File.type file = "application/pdf" -> getFileType file = Some pdf.
Proof.
  intros H. unfold getFileType. rewrite H. reflexivity.
Qed.

Lemma getFileType_other file :
  (forall rest, File.type file <> "video/" ++ rest) ->
  (forall rest, File.type file <> "audio/" ++ rest) ->
  File.type file <> "application/pdf" ->
  getFileType file = None.
Proof.
  intros Hv Ha Hp. unfold getFileType.
  destruct (JsString.startsWith (File.type file) "video/") eqn:Ev.
  { apply startsWith_iff in Ev. destruct Ev as [rest Ev]. now elim (Hv rest). }
  destruct (JsString.startsWith (File.type file) "audio/") eqn:Ea.
  { apply startsWith_iff in Ea. destruct Ea as [rest Ea]. now elim (Ha rest). }
  destruct (String.eqb_spec (File.type file) "application/pdf"); congruence.
Qed.

Lemma validFile_accepts file w :
  fst (validFile file w) = accepts file.
Proof.
  unfold validFile, accepts.
  destruct (getFileType file); [|reflexivity].
  now destruct (maxSize <? File.size file)%N.
Qed.

(** C8, as stated, fails: the type ["videos"] has the prefix ["video"], and
    [getFileType] answers [null] for it. *)
Lemma getFileType_bare_prefix_counterexample :
  ~ (forall file : File.t,
        JsString.startsWith (File.type file) "video" = true ->
        getFileType file = Some video).
Proof.
  intros H.
  specialize (H (File.mk "clip" "videos" 0) eq_refl).
  discriminate H.
Qed.

(** C8, amended: [getFileType] is a function of the declared type alone, and
    the verdict of [validFile] a function of the declared type and size.  The
    type is mapped to [video] when it starts with ["video/"], to [audio] when
    it starts with ["audio/"], to [pdf] when it is exactly
    ["application/pdf"]; for every other type [getFileType] is [null] and
    [validFile] rejects the file with the unsupported-type toast, whatever its
    size.  A file whose type is mapped to a kind is accepted when its size is
    within the limit. *)
Theorem getFileType_by_declared_type (file : File.t) :
  ((exists rest, File.type file = "video/" ++ rest) ->
     getFileType file = Some video) /\
  ((exists rest, File.type file = "audio/" ++ rest) ->
     getFileType file = Some audio) /\
  (File.type file = "application/pdf" -> getFileType file = Some pdf) /\
  ((forall rest, File.type file <> "video/" ++ rest) ->
   (forall rest, File.type file <> "audio/" ++ rest) ->
   File.type file <> "application/pdf" ->
     getFileType file = None /\
     forall w, validFile file w
               = (false, exec (toast (UnsupportedFileType (File.name file))) w)) /\
  (forall file', File.type file' = File.type file ->
     getFileType file' = getFileType file) /\
  (forall file' w w',
     File.type file' = File.type file -> File.size file' = File.size file ->
     fst (validFile file' w') = fst (validFile file w)) /\
  (forall k w, getFileType file = Some k -> (File.size file <= maxSize)%N ->
     validFile file w = (true, w)).
Proof.
  repeat split.
  - intros [rest H]. eapply getFileType_video; eauto.
  - intros [rest H]. eapply getFileType_audio; eauto.
  - apply getFileType_pdf.
  - now apply getFileType_other.
  - intros w. unfold validFile.
    rewrite (getFileType_other file) by assumption. reflexivity.
  - intros file' H. unfold getFileType. now rewrite H.
  - intros file' w w' Ht Hs. rewrite !validFile_accepts.
    unfold accepts, getFileType. now rewrite Ht, Hs.
  - intros k w Hk Hle. unfold validFile. rewrite Hk.
    destruct (N.ltb_spec maxSize (File.size file)); [lia | reflexivity].
Qed.

Lemma getFileType_by_declared_type_witness :
  getFileType (File.mk "a.mp4" "video/mp4" 10485760) = Some video /\
  getFileType (File.mk "song.mp3" "audio/mpeg" 0) = Some audio /\
  getFileType (File.mk "r.pdf" "application/pdf" 5) = Some pdf /\
  getFileType (File.mk "z.zip" "application/zip" 1024) = None.
Proof.
  split; [|split; [|split]].
  - apply (proj1 (getFileType_by_declared_type _)). now exists "mp4".
  - apply (proj1 (proj2 (getFileType_by_declared_type _))). now exists "mpeg".
  - apply (proj1 (proj2 (proj2 (getFileType_by_declared_type _)))). reflexivity.
  - apply (proj1 (proj2 (proj2 (proj2 (getFileType_by_declared_type _))))).
    + intros rest H. discriminate H.
    + intros rest H. discriminate H.
    + intros H. discriminate H.
Defined.

(** C5, as stated, fails: a 60 MiB file of type ["application/zip"] exceeds
    the limit and is rejected as unsupported, not as too large. *)
Lemma tooLarge_unsupported_type_counterexample :
  ~ (forall (file : File.t) (w : World),
        (maxSize < File.size file)%N <->
        validFile file w
        = (false, exec (toast (FileTooLarge (File.name file))) w)).
Proof.
  intros H.
  destruct (H (File.mk "z.zip" "application/zip" 62914560) init) as [H1 _].
  specialize (H1 eq_refl). discriminate H1.
Qed.

(** C5, amended: [validFile] rejects a file as too large exactly when its
    type is supported and its size strictly exceeds 50 MiB (52428800 bytes);
    a file of a supported type whose size is at most the limit, so also an
    empty one and one of exactly the limit, is accepted without a toast; a
    file of an unsupported type is rejected as unsupported whatever its
    size. *)
Theorem validFile_tooLarge_iff (file : File.t) (w : World) :
  maxSize = 52428800%N /\
  (validFile file w = (false, exec (toast (FileTooLarge (File.name file))) w)
   <-> getFileType file <> None /\ (maxSize < File.size file)%N) /\
  (getFileType file <> None -> (File.size file <= maxSize)%N ->
     validFile file w = (true, w)) /\
  (getFileType file = None ->
     validFile file w
     = (false, exec (toast (UnsupportedFileType (File.name file))) w)).
Proof.
  split; [reflexivity|]. unfold validFile.
  destruct (getFileType file) as [k|] eqn:Ek.
  - destruct (N.ltb_spec maxSize (File.size file)) as [Hlt|Hle].
    + split; [|split].
      * split; [intros _; split; [discriminate | assumption] | reflexivity].
      * intros _ Hle. lia.
      * discriminate.
    + split; [|split].
      * split; [discriminate | intros [_ Hlt]; lia].
      * reflexivity.
      * discriminate.
  - split; [|split].
    + split.
      * intros H. apply (f_equal (fun p => toasts (snd p))) in H.
        unfold exec, bind, ret, toast in H. simpl in H.
        apply app_inv_head in H. discriminate H.
      * intros [H _]. congruence.
    + congruence.
    + reflexivity.
Qed.

Lemma validFile_tooLarge_iff_witness :
  validFile (File.mk "empty.mp3" "audio/mpeg" 0) init = (true, init) /\
  validFile (File.mk "full.mp4" "video/mp4" 52428800) init = (true, init) /\
  validFile (File.mk "big.mp3" "audio/mpeg" 62914560) init
  = (false, exec (toast (FileTooLarge "big.mp3")) init) /\
  validFile (File.mk "z.zip" "application/zip" 62914560) init
  = (false, exec (toast (UnsupportedFileType "z.zip")) init).
Proof.
  split; [|split; [|split]].
  - apply (proj1 (proj2 (proj2 (validFile_tooLarge_iff _ init)))).
    + discriminate.
    + vm_compute. discriminate.
  - apply (proj1 (proj2 (proj2 (validFile_tooLarge_iff _ init)))).
    + discriminate.
    + vm_compute. discriminate.
  - apply (proj2 (proj1 (proj2 (validFile_tooLarge_iff
             (File.mk "big.mp3" "audio/mpeg" 62914560) init)))).
    split; [discriminate | reflexivity].
  - apply (proj2 (proj2 (proj2 (validFile_tooLarge_iff
             (File.mk "z.zip" "application/zip" 62914560) init)))).
    reflexivity.
Defined.

End Validation.

(* ================================================================= *)
(** * The catalog *)

Lemma find_none_iff {A : Type} (f : A -> bool) (l : list A) :
  find f l = None <-> forall x, In x l -> f x = false.
Proof.
  split; [apply find_none|].
  induction l as [|a l IH]; intros H; simpl; [reflexivity|].
  rewrite (H a (or_introl eq_refl)). apply IH. intros x Hx. apply H. now right.
Qed.

Section Catalog.
Import FileContext.

Lemma countId_app files files' id :
  countId (files ++ files') id = countId files id + countId files' id.
Proof. unfold countId. now rewrite filter_app, length_app. Qed.

Lemma getFile_app_some files files' id f :
  getFile files id = Some f -> getFile (files ++ files') id = Some f.
Proof.
  unfold getFile. induction files as [|g files IH]; simpl; [discriminate|].
  destruct (CloudFile.id g =? id)%string; auto.
Qed.

Lemma getFile_app_none files files' id :
  getFile files id = None -> getFile (files ++ files') id = getFile files' id.
Proof.
  unfold getFile. induction files as [|g files IH]; simpl; [reflexivity|].
  destruct (CloudFile.id g =? id)%string; [discriminate | auto].
Qed.

Lemma in_removeFile files id f :
  In f (removeFile files id) <-> In f files /\ CloudFile.id f <> id.
Proof.
  unfold removeFile. rewrite filter_In, negb_true_iff.
  now rewrite String.eqb_neq.
Qed.

Lemma getFile_removeFile files id : getFile (removeFile files id) id = None.
Proof.
  unfold getFile. apply find_none_iff. intros f Hf.
  apply in_removeFile in Hf. now apply String.eqb_neq.
Qed.

Lemma getFile_none_iff files id :
  getFile files id = None <-> ~ In id (map CloudFile.id files).
Proof.
  unfold getFile. rewrite find_none_iff, in_map_iff. split.
  - intros H [f [Hid Hf]]. apply H in Hf. apply String.eqb_neq in Hf. auto.
  - intros H f Hf. apply String.eqb_neq. intros Hid. apply H. now exists f.
Qed.

Lemma removeFile_absent files id :
  getFile files id = None -> removeFile files id = files.
Proof.
  intros H. unfold removeFile.
  apply forallb_filter_id, forallb_forall. intros f Hf.
  unfold getFile in H. rewrite find_none_iff in H.
  now rewrite (H f Hf).
Qed.

Lemma removeFile_idempotent files id :
  removeFile (removeFile files id) id = removeFile files id.
Proof. apply removeFile_absent, getFile_removeFile. Qed.

Lemma removeFile_DropsOnly files id : DropsOnly id files (removeFile files id).
Proof.
  induction files as [|f files IH]; simpl; [constructor|].
  destruct (String.eqb_spec (CloudFile.id f) id); simpl.
  - now apply DropsOnly_drop.
  - now apply DropsOnly_keep.
Qed.

Lemma DropsOnly_unique id files l :
  DropsOnly id files l ->
  (forall f, In f l -> CloudFile.id f <> id) ->
  l = removeFile files id.
Proof.
  induction 1 as [|f l l' _ IH|f l l' Hid _ IH]; intros Hl; simpl.
  - reflexivity.
  - destruct (String.eqb_spec (CloudFile.id f) id) as [E|_]; simpl.
    + elim (Hl f (or_introl eq_refl) E).
    + f_equal. apply IH. intros g Hg. apply Hl. now right.
  - destruct (String.eqb_spec (CloudFile.id f) id) as [_|E]; simpl.
    + now apply IH.
    + contradiction.
Qed.

(** C3, as stated, fails: [addFile] on a catalog that already holds the id
    inserts a second entry with it. *)
Lemma addFile_duplicate_id_counterexample :
  ~ (forall (files : list CloudFile.t) (file : CloudFile.t),
        In (CloudFile.id file) (map CloudFile.id files) ->
        countId (addFile files file) (CloudFile.id file)
        = countId files (CloudFile.id file)).
Proof.
  intros H.
  pose (e := CloudFile.mk "abc" "a.mp4" video 10 0 0 None).
  specialize (H [e] e (or_introl eq_refl)).
  discriminate H.
Qed.

(** C3, amended: [addFile] never fails and performs no check on the id: for
    every catalog and every entry, also one whose id is already present, it
    appends the entry, so the catalog has one more entry carrying that id;
    [getFile] keeps returning the older entry when there was one. *)
Theorem addFile_always_appends (files : list CloudFile.t) (file : CloudFile.t) :
  length (addFile files file) = S (length files) /\
  In file (addFile files file) /\
  countId (addFile files file) (CloudFile.id file)
  = S (countId files (CloudFile.id file)) /\
  (forall old, getFile files (CloudFile.id file) = Some old ->
     getFile (addFile files file) (CloudFile.id file) = Some old) /\
  (getFile files (CloudFile.id file) = None ->
     getFile (addFile files file) (CloudFile.id file) = Some file).
Proof.
  unfold addFile. repeat split.
  - rewrite length_app. simpl. lia.
  - apply in_or_app. right. now left.
  - rewrite countId_app. unfold countId at 2. simpl.
    rewrite String.eqb_refl. simpl. lia.
  - intros old H. now apply getFile_app_some.
  - intros H. rewrite getFile_app_none by assumption.
    unfold getFile. simpl. now rewrite String.eqb_refl.
Qed.

Lemma addFile_always_appends_witness :
  getFile (addFile [CloudFile.mk "abc" "a.mp4" video 10 0 0 None]
                   (CloudFile.mk "abc" "b.mp3" audio 20 1 5 None)) "abc"
  = Some (CloudFile.mk "abc" "a.mp4" video 10 0 0 None).
Proof.
  apply (proj1 (proj2 (proj2 (proj2
    (addFile_always_appends [CloudFile.mk "abc" "a.mp4" video 10 0 0 None]
                            (CloudFile.mk "abc" "b.mp3" audio 20 1 5 None)))))).
  reflexivity.
Defined.

(** C10: [addFile] puts the new entry at the end and leaves every entry that
    was present at its position, unchanged; [removeFile id] takes out exactly
    the entries whose id is [id]: an entry is in the result if and only if it
    was present with another id, the result is the catalog with only entries
    of that id dropped and the others kept in place, and it is the only such
    list that holds no entry with that id. *)
Theorem catalog_frame (files : list CloudFile.t) (file : CloudFile.t)
  (id : string) :
  length (addFile files file) = S (length files) /\
  (forall k, k < length files ->
     nth_error (addFile files file) k = nth_error files k) /\
  nth_error (addFile files file) (length files) = Some file /\
  (forall f, In f (removeFile files id) <-> In f files /\ CloudFile.id f <> id) /\
  DropsOnly id files (removeFile files id) /\
  (forall l, DropsOnly id files l ->
     (forall f, In f l -> CloudFile.id f <> id) -> l = removeFile files id).
Proof.
  split; [|split; [|split; [|split; [|split]]]].
  - unfold addFile. rewrite length_app. simpl. lia.
  - intros k Hk. unfold addFile. now rewrite nth_error_app1.
  - unfold addFile. rewrite nth_error_app2, Nat.sub_diag by lia. reflexivity.
  - intros f. apply in_removeFile.
  - apply removeFile_DropsOnly.
  - apply DropsOnly_unique.
Qed.

Lemma catalog_frame_witness :
  nth_error (addFile [CloudFile.mk "a" "a.mp4" video 10 0 0 None;
                      CloudFile.mk "b" "b.mp3" audio 20 1 5 None]
                     (CloudFile.mk "c" "c.pdf" pdf 30 2 9 None)) 1
  = Some (CloudFile.mk "b" "b.mp3" audio 20 1 5 None).
Proof.
  rewrite (proj1 (proj2 (catalog_frame _ _ "a")) 1).
  - reflexivity.
  - simpl. lia.
Defined.

End Catalog.

(* ================================================================= *)
(** * The filtered view *)

Section QueryFacts.
Import FilesPage.

Variable toLowerCase : string -> string.
Hypothesis toLowerCase_empty : toLowerCase "" = "".

Local Abbreviation matchesSearch := (FilesPage.matchesSearch toLowerCase).
Local Abbreviation filteredFiles := (FilesPage.filteredFiles toLowerCase).

Lemma matchesSearch_empty f : matchesSearch "" f = true.
Proof.
  unfold FilesPage.matchesSearch.
  rewrite toLowerCase_empty. apply includes_empty.
Qed.

Lemma matchesFilter_iff filterType f :
  matchesFilter filterType f = true
  <-> filterType = all \/ filterType = only (CloudFile.type f).
Proof.
  destruct filterType as [|k]; simpl.
  - split; auto.
  - rewrite FileKind_eqb_eq. split.
    + intros <-. now right.
    + intros [H|H]; [discriminate | now inversion H].
Qed.

Lemma filteredFiles_as_filters files text filterType :
  filteredFiles files text filterType
  = filter (matchesFilter filterType) (filter (matchesSearch text) files).
Proof.
  unfold FilesPage.filteredFiles.
  induction files as [|f files IH]; simpl; [reflexivity|].
  destruct (matchesSearch text f); simpl.
  - destruct (matchesFilter filterType f); now rewrite IH.
  - apply IH.
Qed.

Lemma filter_comm {A : Type} (p q : A -> bool) (l : list A) :
  filter p (filter q l) = filter q (filter p l).
Proof.
  induction l as [|a l IH]; simpl; [reflexivity|].
  destruct (q a) eqn:Eq, (p a) eqn:Ep; simpl; rewrite ?Eq, ?Ep, IH; reflexivity.
Qed.

Lemma filteredFiles_all_empty files : filteredFiles files "" all = files.
Proof.
  unfold FilesPage.filteredFiles.
  apply forallb_filter_id, forallb_forall. intros f _.
  now rewrite matchesSearch_empty.
Qed.

(** C9: with no text and the filter [all] the view is the catalog itself;
    an entry is shown exactly when it is in the catalog, its lower-cased
    name contains the lower-cased text and the filter is [all] or its own
    kind, so a kind filter shows entries of that kind only; the text match
    looks at the lower-cased forms alone, and the empty text matches every
    entry; the view for a text and a filter is the view, by filter alone, of
    the view by text alone, and the other way round. *)
Theorem filteredFiles_query (files : list CloudFile.t) (text : string)
  (filterType : FilterType) :
  filteredFiles files "" all = files /\
  (forall f, In f (filteredFiles files text filterType)
             <-> In f files /\ matchesSearch text f = true /\
                 (filterType = all \/ filterType = only (CloudFile.type f))) /\
  (forall k f, In f (filteredFiles files text (only k)) -> CloudFile.type f = k) /\
  (forall f, matchesSearch text f = true
             <-> exists before after,
                   toLowerCase (CloudFile.name f)
                   = before ++ toLowerCase text ++ after) /\
  (forall text' f f',
     toLowerCase text' = toLowerCase text ->
     toLowerCase (CloudFile.name f') = toLowerCase (CloudFile.name f) ->
     matchesSearch text' f' = matchesSearch text f) /\
  (forall f, matchesSearch "" f = true) /\
  filteredFiles files text filterType
  = filteredFiles (filteredFiles files text all) "" filterType /\
  filteredFiles files text filterType
  = filteredFiles (filteredFiles files "" filterType) text all.
Proof.
  assert (Hin : forall ft f, In f (filteredFiles files text ft)
             <-> In f files /\ matchesSearch text f = true /\
                 (ft = all \/ ft = only (CloudFile.type f))).
  { intros ft f. unfold FilesPage.filteredFiles.
    rewrite filter_In, andb_true_iff, matchesFilter_iff. reflexivity. }
  split; [apply filteredFiles_all_empty|].
  split; [apply Hin|].
  split.
  { intros k f Hf. apply Hin in Hf. destruct Hf as [_ [_ [H|H]]].
    - discriminate H.
    - now inversion H. }
  split; [intros f; apply includes_iff|].
  split.
  { intros text' f f' Ht Hn.
    unfold FilesPage.matchesSearch. now rewrite Ht, Hn. }
  split; [apply matchesSearch_empty|].
  assert (Hall : forall l t, filter (matchesFilter all) (filter (matchesSearch t) l)
                             = filter (matchesSearch t) l).
  { intros l t. apply forallb_filter_id, forallb_forall. reflexivity. }
  assert (Hempty : forall l, filter (matchesSearch "") l = l).
  { intros l. apply forallb_filter_id, forallb_forall.
    intros f _. apply matchesSearch_empty. }
  split.
  - rewrite (filteredFiles_as_filters (filteredFiles files text all)).
    rewrite Hempty. rewrite !filteredFiles_as_filters. now rewrite Hall.
  - rewrite (filteredFiles_as_filters (filteredFiles files "" filterType)).
    rewrite Hall. rewrite !filteredFiles_as_filters. rewrite Hempty.
    apply filter_comm.
Qed.

End QueryFacts.

Lemma asciiLower_empty : JsString.asciiLower "" = "".
Proof. reflexivity. Qed.

Lemma filteredFiles_query_witness :
  let report := CloudFile.mk "a" "Report.pdf" pdf 10 0 0 None in
  let report2 := CloudFile.mk "b" "report2.pdf" pdf 20 1 5 None in
  let clip := CloudFile.mk "c" "clip.mp4" video 30 2 9 None in
  FilesPage.filteredFiles JsString.asciiLower [report; clip; report2] "REPORT" (only pdf)
  = FilesPage.filteredFiles JsString.asciiLower
      (FilesPage.filteredFiles JsString.asciiLower [report; clip; report2] "REPORT" all)
      "" (only pdf).
Proof.
  intros report report2 clip.
  apply (filteredFiles_query JsString.asciiLower asciiLower_empty).
Defined.

(** Scenario 5 of the specification, with names and text in ASCII. *)
Example filteredFiles_report :
  let report := CloudFile.mk "a" "Report.pdf" pdf 10 0 0 None in
  let report2 := CloudFile.mk "b" "report2.pdf" pdf 20 1 5 None in
  FilesPage.filteredFiles JsString.asciiLower [report; report2] "report" all
  = [report; report2] /\
  FilesPage.filteredFiles JsString.asciiLower [report; report2] "report" (only video)
  = [].
Proof. split; reflexivity. Qed.

(* ================================================================= *)
(** * Timers and progress *)

Section Ticks.
Import UploadPage Platform.

Lemma cleared_idem interval ts :
  cleared interval (cleared interval ts) = cleared interval ts.
Proof.
  unfold cleared. apply forallb_filter_id, forallb_forall.
  intros t Ht. now apply filter_In in Ht.
Qed.

Lemma target_none_iff interval ts :
  target interval ts = None <-> ~ In interval (map fst ts).
Proof.
  induction ts as [|[h id] ts IH]; simpl.
  - tauto.
  - destruct (Nat.eqb_spec h interval) as [->|Hne].
    + split; [discriminate | intros H; elim H; now left].
    + rewrite IH. tauto.
Qed.

Lemma target_cleared interval ts : target interval (cleared interval ts) = None.
Proof.
  apply target_none_iff. rewrite in_map_iff. intros [t [Ht Hin]].
  apply filter_In in Hin. destruct Hin as [_ Hin].
  apply negb_true_iff, Nat.eqb_neq in Hin. contradiction.
Qed.

Lemma target_cleared_other h interval ts :
  h <> interval -> target h (cleared interval ts) = target h ts.
Proof.
  intros Hne. induction ts as [|[h' id] ts IH]; simpl; [reflexivity|].
  destruct (Nat.eqb_spec h' interval) as [->|Hne']; simpl.
  - destruct (Nat.eqb_spec interval h); [congruence | exact IH].
  - now rewrite IH.
Qed.

Lemma target_app interval ts ts' :
  target interval (ts ++ ts')
  = match target interval ts with
    | Some id => Some id
    | None => target interval ts'
    end.
Proof.
  induction ts as [|[h id] ts IH]; simpl; [reflexivity|].
  now destruct (Nat.eqb h interval).
Qed.

Lemma isRandom_hd rnd : Forall isRandom rnd -> isRandom (hd 0%Q rnd).
Proof.
  intros H. destruct H as [|r l Hr _]; simpl; [|exact Hr].
  split; [apply Qle_refl | reflexivity].
Qed.

Lemma isRandom_tl rnd : Forall isRandom rnd -> Forall isRandom (tl rnd).
Proof. intros H. destruct H as [|r l _ H]; simpl; [constructor | exact H]. Qed.

Lemma increment_nonneg r : isRandom r -> (0 <= r * 15)%Q.
Proof. intros [H _]. apply Qmult_le_0_compat; [exact H | discriminate]. Qed.

Lemma newProgress_ge p r :
  isRandom r -> (p <= 100)%Q -> (p <= Qmin (p + r * 15) 100)%Q.
Proof.
  intros Hr Hp. apply Q.min_glb; [|exact Hp].
  rewrite <- (Qplus_0_r p) at 1.
  apply Qplus_le_compat; [apply Qle_refl | now apply increment_nonneg].
Qed.

Lemma newProgress_le p r : (Qmin (p + r * 15) 100 <= 100)%Q.
Proof. apply Q.le_min_r. Qed.

Lemma completes_at_100 r :
  isRandom r -> Qle_bool 100 (Qmin (100 + r * 15) 100) = true.
Proof.
  intros Hr. apply Qle_bool_iff. apply newProgress_ge; [exact Hr | apply Qle_refl].
Qed.

Lemma advance_progress interval now r uf w :
  Qle_bool 100 (Qmin (UploadingFile.progress uf + r * 15) 100) = false ->
  advance interval now r uf w
  = ({| UploadingFile.file := UploadingFile.file uf;
        UploadingFile.progress := Qmin (UploadingFile.progress uf + r * 15) 100;
        UploadingFile.status := UploadingFile.status uf;
        UploadingFile.id := UploadingFile.id uf |}, w).
Proof. intros H. unfold advance. rewrite H. reflexivity. Qed.

Lemma advance_complete interval now r uf w k :
  Qle_bool 100 (Qmin (UploadingFile.progress uf + r * 15) 100) = true ->
  getFileType (UploadingFile.file uf) = Some k ->
  advance interval now r uf w
  = ({| UploadingFile.file := UploadingFile.file uf;
        UploadingFile.progress := 100%Q;
        UploadingFile.status := completed;
        UploadingFile.id := UploadingFile.id uf |},
     {| uploadingFiles := uploadingFiles w;
        files := files w ++
          [{| CloudFile.id := UploadingFile.id uf;
              CloudFile.name := File.name (UploadingFile.file uf);
              CloudFile.type := k;
              CloudFile.size := File.size (UploadingFile.file uf);
              CloudFile.url := nextObjectURL w;
              CloudFile.uploadDate := now;
              CloudFile.thumbnail := None |}];
        intervals := cleared interval (intervals w);
        nextInterval := nextInterval w;
        objectURLs := objectURLs w ++ [nextObjectURL w];
        nextObjectURL := S (nextObjectURL w);
        revoked := revoked w;
        toasts := toasts w ++ [UploadComplete (File.name (UploadingFile.file uf))] |}).
Proof. intros H Hk. unfold advance. rewrite H, Hk. reflexivity. Qed.

Lemma advance_id interval now r uf w :
  UploadingFile.id (fst (advance interval now r uf w)) = UploadingFile.id uf.
Proof.
  unfold advance.
  destruct (Qle_bool 100 _); [|reflexivity].
  now destruct (getFileType (UploadingFile.file uf)).
Qed.

Lemma mapTick_ids interval id now prev :
  forall rnd w,
    map UploadingFile.id (fst (mapTick interval id now rnd prev w))
    = map UploadingFile.id prev.
Proof.
  induction prev as [|uf rest IH]; intros rnd w; simpl; [reflexivity|].
  destruct (UploadingFile.id uf =? id)%string; unfold bind.
  - pose proof (advance_id interval now (hd 0%Q rnd) uf w) as Hid.
    destruct (advance interval now (hd 0%Q rnd) uf w) as [uf' w1].
    specialize (IH (tl rnd) w1).
    destruct (mapTick interval id now (tl rnd) rest w1) as [rest' w2].
    simpl in *. now rewrite Hid, IH.
  - specialize (IH rnd w).
    destruct (mapTick interval id now rnd rest w) as [rest' w2].
    simpl in *. now rewrite IH.
Qed.

Lemma completed_entry_fixed uf :
  UploadingFile.status uf = completed -> UploadingFile.progress uf = 100%Q ->
  {| UploadingFile.file := UploadingFile.file uf;
     UploadingFile.progress := 100%Q;
     UploadingFile.status := completed;
     UploadingFile.id := UploadingFile.id uf |} = uf.
Proof. destruct uf; simpl; intros -> ->; reflexivity. Qed.

Lemma seq_snoc_shift n m k :
  m = S n -> n <= k -> m <= k ->
  ([n] ++ seq m (k - m))%list = seq n (k - n).
Proof.
  intros -> H1 H2. replace (k - n) with (S (k - S n)) by lia. reflexivity.
Qed.

Lemma mapTick_spec interval id now :
  forall prev rnd w next w',
    Forall isRandom rnd -> Forall stagingOk prev ->
    mapTick interval id now rnd prev w = (next, w') ->
    uploadingFiles w' = uploadingFiles w /\
    nextInterval w' = nextInterval w /\
    revoked w' = revoked w /\
    (intervals w' = intervals w \/ intervals w' = cleared interval (intervals w)) /\
    nextObjectURL w <= nextObjectURL w' /\
    objectURLs w'
    = (objectURLs w ++ seq (nextObjectURL w) (nextObjectURL w' - nextObjectURL w))%list /\
    (exists added,
       files w' = (files w ++ added)%list /\
       map CloudFile.url added
       = seq (nextObjectURL w) (nextObjectURL w' - nextObjectURL w) /\
       Forall (fun f => exists uf',
                 In uf' next /\ UploadingFile.id uf' = id /\
                 UploadingFile.status uf' = completed /\
                 UploadingFile.progress uf' = 100%Q /\ inserted uf' f) added) /\
    Forall2 (fun uf uf' =>
       ticked uf uf' /\ stagingOk uf' /\
       (UploadingFile.id uf <> id -> uf' = uf) /\
       (UploadingFile.status uf = completed -> uf' = uf) /\
       (UploadingFile.id uf = id ->
          ((UploadingFile.progress uf' < 100)%Q /\
           UploadingFile.status uf' = UploadingFile.status uf /\
           UploadingFile.status uf' <> completed) \/
          (UploadingFile.status uf' = completed /\
           UploadingFile.progress uf' = 100%Q /\
           intervals w' = cleared interval (intervals w) /\
           exists f, In f (files w') /\ nextObjectURL w <= CloudFile.url f /\
                     inserted uf' f))) prev next.
Proof.
  induction prev as [|uf rest IH]; intros rnd w next w' Hrnd Hprev H.
  - simpl in H. inversion H; subst. rewrite Nat.sub_diag. simpl.
    rewrite app_nil_r. repeat split; auto.
    exists []. rewrite app_nil_r. repeat split; auto.
  - inversion Hprev as [|? ? Huf Hrest]; subst.
    simpl in H. destruct (String.eqb_spec (UploadingFile.id uf) id) as [Hid|Hid].
    + (* the entry of the timer *)
      unfold bind in H.
      pose proof (isRandom_hd rnd Hrnd) as Hr.
      destruct Huf as (Hp0 & Hp100 & Herr & Hdone & Hty).
      destruct (getFileType (UploadingFile.file uf)) as [k|] eqn:Ek; [|congruence].
      destruct (Qle_bool 100 (Qmin (UploadingFile.progress uf + hd 0%Q rnd * 15) 100))
        eqn:Ec.
      * (* reaches 100 *)
        rewrite (advance_complete _ _ _ _ _ k Ec Ek) in H.
        match type of H with
        | (let (_, _) := ?m in _) = _ => destruct m as [rest' w2] eqn:Er
        end.
        unfold ret in H. inversion H; subst next w2. clear H.
        destruct (IH _ _ _ _ (isRandom_tl rnd Hrnd) Hrest Er)
          as (Hu & Hn & Hrv & Hiv & Hle & Hurls & (added & Hfiles & Hadded & Hall) & Hrel).
        simpl in Hu, Hn, Hrv, Hiv, Hle, Hurls, Hfiles, Hadded.
        assert (Hcl : intervals w' = cleared interval (intervals w)).
        { destruct Hiv as [Hiv|Hiv]; rewrite Hiv; [reflexivity | apply cleared_idem]. }
        split; [exact Hu|]. split; [exact Hn|]. split; [exact Hrv|].
        split; [now right|]. split; [lia|].
        split.
        { rewrite Hurls, <- app_assoc. f_equal. apply seq_snoc_shift; lia. }
        split.
        { eexists (_ :: added). split; [|split].
          - rewrite Hfiles, <- app_assoc. reflexivity.
          - simpl. rewrite Hadded.
            apply (seq_snoc_shift (nextObjectURL w) (S (nextObjectURL w)));
              [reflexivity | lia | lia].
          - constructor.
            + eexists. split; [now left|]. simpl.
              repeat split; auto.
            + eapply Forall_impl; [|exact Hall]. simpl.
              intros f (uf' & Hin & Hrest'). exists uf'. split; [now right | exact Hrest']. }
        constructor.
        { split; [|split; [|split; [|split]]].
          - unfold ticked. simpl. repeat split; auto. apply Qle_refl.
          - unfold stagingOk. simpl. repeat split; auto; try discriminate.
            rewrite Ek. discriminate.
          - intros Hne. contradiction.
          - intros Hst. apply completed_entry_fixed; auto.
          - intros _. right. simpl. split; [reflexivity|].
            split; [reflexivity|]. split; [exact Hcl|].
            eexists. split; [rewrite Hfiles; apply in_or_app; left;
                             apply in_or_app; right; now left|].
            simpl. split; [lia|]. unfold inserted. simpl. repeat split; auto. }
        eapply Forall2_impl; [|exact Hrel]. simpl.
        intros a b (Ht & Hok & Hne & Hst & Hcomp).
        split; [exact Ht|]. split; [exact Hok|]. split; [exact Hne|].
        split; [exact Hst|].
        intros Ha. destruct (Hcomp Ha) as [Hlow|(Hdn & Hb100 & _ & f & Hf & Hurl & Hins)].
        { now left. }
        right. split; [exact Hdn|]. split; [exact Hb100|]. split; [exact Hcl|].
        exists f. split; [exact Hf|]. split; [lia | exact Hins].
      * (* stays below 100 *)
        rewrite (advance_progress _ _ _ _ _ Ec) in H.
        destruct (mapTick interval id now (tl rnd) rest w) as [rest' w2] eqn:Er.
        unfold ret in H. inversion H; subst next w2. clear H.
        destruct (IH _ _ _ _ (isRandom_tl rnd Hrnd) Hrest Er)
          as (Hu & Hn & Hrv & Hiv & Hle & Hurls & (added & Hfiles & Hadded & Hall) & Hrel).
        assert (Hnot : UploadingFile.status uf <> completed).
        { intros Hst. rewrite (Hdone Hst) in Ec.
          rewrite (completes_at_100 _ Hr) in Ec. discriminate. }
        split; [exact Hu|]. split; [exact Hn|]. split; [exact Hrv|].
        split; [exact Hiv|]. split; [exact Hle|]. split; [exact Hurls|].
        split.
        { exists added. split; [exact Hfiles|]. split; [exact Hadded|].
          eapply Forall_impl; [|exact Hall]. simpl.
          intros f (uf' & Hin & Hrest'). exists uf'. split; [now right | exact Hrest']. }
        constructor; [|exact Hrel].
        split; [|split; [|split; [|split]]].
        -- unfold ticked. simpl. repeat split; auto.
           ++ now apply newProgress_ge.
           ++ apply newProgress_le.
        -- unfold stagingOk. simpl. repeat split; auto.
           ++ eapply Qle_trans; [exact Hp0 | now apply newProgress_ge].
           ++ apply newProgress_le.
           ++ intros Hst. contradiction.
           ++ rewrite Ek. discriminate.
        -- intros Hne. contradiction.
        -- intros Hst. contradiction.
        -- simpl. intros _. left. split; [|split; auto].
           apply Qnot_le_lt. intros Hle'. apply Qle_bool_iff in Hle'. congruence.
    + (* another entry *)
      unfold bind in H.
      destruct (mapTick interval id now rnd rest w) as [rest' w2] eqn:Er.
      unfold ret in H. inversion H; subst next w2. clear H.
      destruct (IH _ _ _ _ Hrnd Hrest Er)
        as (Hu & Hn & Hrv & Hiv & Hle & Hurls & (added & Hfiles & Hadded & Hall) & Hrel).
      split; [exact Hu|]. split; [exact Hn|]. split; [exact Hrv|].
      split; [exact Hiv|]. split; [exact Hle|]. split; [exact Hurls|].
      split.
      { exists added. split; [exact Hfiles|]. split; [exact Hadded|].
        eapply Forall_impl; [|exact Hall]. simpl.
        intros f (uf' & Hin & Hrest'). exists uf'. split; [now right | exact Hrest']. }
      constructor; [|exact Hrel].
      split; [|split; [|split; [|split]]]; auto.
      * destruct Huf as (Hp0 & Hp100 & _). unfold ticked. repeat split; auto. apply Qle_refl.
      * intros Hid'. contradiction.
Qed.

End Ticks.

(* ================================================================= *)
(** * Steps of a session and the invariant *)

Section Sessions.
Import UploadPage Platform.

Lemma validFiles_spec fs :
  forall w,
    fst (validFiles fs w) = filter accepts fs /\
    sameButToasts w (snd (validFiles fs w)).
Proof.
  induction fs as [|file rest IH]; intros w; simpl.
  - split; [reflexivity | now repeat split].
  - unfold bind.
    pose proof (validFile_accepts file w) as Hacc.
    assert (Hsame : sameButToasts w (snd (validFile file w))).
    { unfold validFile. destruct (getFileType file); [|now repeat split].
      destruct (maxSize <? File.size file)%N; now repeat split. }
    destruct (validFile file w) as [keep w1]. simpl in Hacc, Hsame. subst keep.
    destruct (IH w1) as [Hfst Hsnd].
    destruct (validFiles rest w1) as [rest' w2]. simpl in *. subst rest'.
    split.
    + now destruct (accepts file).
    + unfold sameButToasts in *. intuition congruence.
Qed.

Lemma forEach_simulateUpload new :
  forall w,
    let w' := exec (forEach simulateUpload new) w in
    uploadingFiles w' = uploadingFiles w /\
    files w' = files w /\
    intervals w'
    = (intervals w
       ++ combine (seq (nextInterval w) (length new)) (map UploadingFile.id new))%list /\
    nextInterval w' = nextInterval w + length new /\
    objectURLs w' = objectURLs w /\
    nextObjectURL w' = nextObjectURL w /\
    revoked w' = revoked w.
Proof.
  induction new as [|uf rest IH]; intros w; simpl.
  - rewrite app_nil_r, Nat.add_0_r. now repeat split.
  - unfold exec, bind, simulateUpload, setInterval, ret in *. simpl.
    match goal with
    | |- context [forEach _ rest ?w1] => specialize (IH w1)
    end.
    simpl in IH.
    destruct IH as (H1 & H2 & H3 & H4 & H5 & H6 & H7).
    repeat split; try assumption.
    + rewrite H3, <- app_assoc. reflexivity.
    + rewrite H4. lia.
Qed.

Lemma handleFiles_spec fs ids w :
  let new := newUploadingFiles (filter accepts fs) ids in
  let w' := exec (handleFiles fs ids) w in
  uploadingFiles w' = (uploadingFiles w ++ new)%list /\
  files w' = files w /\
  intervals w'
  = (intervals w
     ++ combine (seq (nextInterval w) (length new)) (map UploadingFile.id new))%list /\
  nextInterval w' = nextInterval w + length new /\
  objectURLs w' = objectURLs w /\
  nextObjectURL w' = nextObjectURL w /\
  revoked w' = revoked w.
Proof.
  intros new w'. subst new w'. unfold exec, handleFiles, bind.
  destruct (validFiles_spec fs w) as [Hfst Hsame].
  destruct (validFiles fs w) as [valid w1]. simpl in Hfst, Hsame. subst valid.
  destruct Hsame as (S1 & S2 & S3 & S4 & S5 & S6 & S7).
  unfold setUploadingFiles.
  match goal with
  | |- context [forEach simulateUpload ?n ?w2] =>
      pose proof (forEach_simulateUpload n w2) as H
  end.
  unfold exec in H. simpl in H.
  destruct H as (H1 & H2 & H3 & H4 & H5 & H6 & H7).
  rewrite H1, H2, H3, H4, H5, H6, H7, S1, S2, S3, S4, S5, S6, S7.
  now repeat split.
Qed.

Lemma newUploadingFiles_fresh valid :
  forall ids,
    Forall (fun file => getFileType file <> None) valid ->
    Forall (fun uf => stagingOk uf /\ UploadingFile.progress uf = 0%Q /\
                      UploadingFile.status uf = uploading)
           (newUploadingFiles valid ids).
Proof.
  induction valid as [|file rest IH]; intros ids H; simpl; [constructor|].
  inversion H; subst. constructor; [|now apply IH].
  unfold stagingOk. simpl. repeat split; try discriminate; try assumption.
Qed.

Lemma accepts_supported fs :
  Forall (fun file => getFileType file <> None) (filter accepts fs).
Proof.
  apply Forall_forall. intros file Hin. apply filter_In in Hin.
  destruct Hin as [_ H]. unfold accepts in H.
  destruct (getFileType file); [discriminate | discriminate H].
Qed.

Lemma tick_spec interval id now rnd w :
  Forall isRandom rnd -> Forall stagingOk (uploadingFiles w) ->
  let w' := exec (tick interval id now rnd) w in
  nextInterval w' = nextInterval w /\
  revoked w' = revoked w /\
  (intervals w' = intervals w \/ intervals w' = cleared interval (intervals w)) /\
  nextObjectURL w <= nextObjectURL w' /\
  objectURLs w'
  = (objectURLs w ++ seq (nextObjectURL w) (nextObjectURL w' - nextObjectURL w))%list /\
  (exists added,
     files w' = (files w ++ added)%list /\
     map CloudFile.url added
     = seq (nextObjectURL w) (nextObjectURL w' - nextObjectURL w) /\
     Forall (fun f => exists uf',
               In uf' (uploadingFiles w') /\ UploadingFile.id uf' = id /\
               UploadingFile.status uf' = completed /\
               UploadingFile.progress uf' = 100%Q /\ inserted uf' f) added) /\
  Forall2 (fun uf uf' =>
     ticked uf uf' /\ stagingOk uf' /\
     (UploadingFile.id uf <> id -> uf' = uf) /\
     (UploadingFile.status uf = completed -> uf' = uf) /\
     (UploadingFile.id uf = id ->
        ((UploadingFile.progress uf' < 100)%Q /\
         UploadingFile.status uf' = UploadingFile.status uf /\
         UploadingFile.status uf' <> completed) \/
        (UploadingFile.status uf' = completed /\
         UploadingFile.progress uf' = 100%Q /\
         intervals w' = cleared interval (intervals w) /\
         exists f, In f (files w') /\ nextObjectURL w <= CloudFile.url f /\
                   inserted uf' f))) (uploadingFiles w) (uploadingFiles w').
Proof.
  intros Hrnd Hok w'. subst w'. unfold exec, tick.
  destruct (mapTick interval id now rnd (uploadingFiles w) w) as [next w1] eqn:E.
  destruct (mapTick_spec _ _ _ _ _ _ _ _ Hrnd Hok E)
    as (Hu & Hn & Hrv & Hiv & Hle & Hurls & Hadd & Hrel).
  simpl. repeat split; assumption.
Qed.


Lemma removeFile_spec id w :
  let w' := exec (removeFile id) w in
  uploadingFiles w'
  = filter (fun uf => negb (UploadingFile.id uf =? id)%string) (uploadingFiles w) /\
  files w' = files w /\
  intervals w' = intervals w /\
  nextInterval w' = nextInterval w /\
  objectURLs w' = objectURLs w /\
  nextObjectURL w' = nextObjectURL w /\
  revoked w' = revoked w.
Proof. simpl. now repeat split. Qed.

Lemma deleteFile_spec file w :
  let w' := exec (FilesPage.deleteFile file) w in
  uploadingFiles w' = uploadingFiles w /\
  files w' = FileContext.removeFile (files w) (CloudFile.id file) /\
  intervals w' = intervals w /\
  nextInterval w' = nextInterval w /\
  objectURLs w'
  = filter (fun u => negb (Nat.eqb u (CloudFile.url file))) (objectURLs w) /\
  nextObjectURL w' = nextObjectURL w /\
  revoked w' = (revoked w ++ [CloudFile.url file])%list.
Proof. simpl. now repeat split. Qed.

Lemma NoDup_map_eq {A B : Type} (g : A -> B) (l : list A) a b :
  NoDup (map g l) -> In a l -> In b l -> g a = g b -> a = b.
Proof.
  induction l as [|x l IH]; simpl; [contradiction|].
  intros Hnd Ha Hb Hab. inversion Hnd as [|? ? Hx Hl]; subst.
  destruct Ha as [->|Ha], Hb as [->|Hb]; auto.
  - elim Hx. rewrite Hab. now apply in_map.
  - elim Hx. rewrite <- Hab. now apply in_map.
Qed.

Lemma NoDup_map_filter {A B : Type} (g : A -> B) (p : A -> bool) (l : list A) :
  NoDup (map g l) -> NoDup (map g (filter p l)).
Proof.
  induction l as [|x l IH]; simpl; intros H; [constructor|].
  inversion H as [|? ? Hx Hl]; subst.
  destruct (p x); simpl; [|now apply IH].
  constructor; [|now apply IH].
  intros Hin. apply Hx. apply in_map_iff in Hin. destruct Hin as [y [Hy Hin]].
  apply filter_In in Hin. rewrite <- Hy. apply in_map. tauto.
Qed.

Lemma step_Inv w ev : Inv w -> enabled w ev -> Inv (step w ev).
Proof.
  intros [Hst Hiv Hlive Hfiles Hurls Hrev Honce] Hen.
  destruct ev as [fs ids|interval now rnd|id|file]; simpl.
  - (* handleFiles *)
    destruct (handleFiles_spec fs ids w) as (H1 & H2 & H3 & H4 & H5 & H6 & H7).
    constructor; rewrite ?H1, ?H2, ?H3, ?H4, ?H5, ?H6, ?H7; try assumption.
    + apply Forall_app. split; [assumption|].
      eapply Forall_impl; [|apply newUploadingFiles_fresh, accepts_supported].
      simpl. tauto.
    + apply Forall_app. split.
      * eapply Forall_impl; [|exact Hiv]. simpl. intros; lia.
      * apply Forall_forall. intros [h id] Hin. apply in_combine_l in Hin.
        apply in_seq in Hin. simpl. lia.
  - (* tick *)
    destruct Hen as [Hset Hrnd].
    destruct (target interval (intervals w)) as [id|] eqn:Et; [|congruence].
    destruct (tick_spec interval id now rnd w Hrnd Hst)
      as (Hn & Hrv & Hiv' & Hle & Hlive' & (added & Hadd & Haurl & _) & Hrel).
    set (w' := exec (tick interval id now rnd) w) in *.
    assert (Hnew : forall u, In u (map CloudFile.url added) ->
                             nextObjectURL w <= u < nextObjectURL w').
    { intros u Hu. rewrite Haurl in Hu. apply in_seq in Hu. lia. }
    constructor.
    + clear - Hrel. induction Hrel; constructor; tauto.
    + rewrite Hn. destruct Hiv' as [->| ->]; [assumption|].
      unfold cleared. apply Forall_forall. intros t Ht.
      apply filter_In in Ht. destruct Ht as [Ht _].
      rewrite Forall_forall in Hiv. now apply Hiv.
    + rewrite Hlive'. apply Forall_app. split.
      * eapply Forall_impl; [|exact Hlive]. simpl. intros; lia.
      * apply Forall_forall. intros u Hu. apply in_seq in Hu. lia.
    + rewrite Hadd, Hrv. apply Forall_app. split.
      * eapply Forall_impl; [|exact Hfiles]. simpl.
        intros f (Hf1 & Hf2 & Hf3). split; [lia|]. split; [|assumption].
        rewrite Hlive'. apply in_or_app. now left.
      * apply Forall_forall. intros f Hf.
        assert (Hu : In (CloudFile.url f) (map CloudFile.url added))
          by now apply in_map.
        pose proof (Hnew _ Hu) as Hb. split; [lia|]. split.
        -- rewrite Hlive', <- Haurl. apply in_or_app. now right.
        -- intros Hin. rewrite Forall_forall in Hrev. apply Hrev in Hin. lia.
    + rewrite Hadd, map_app. apply NoDup_app; [assumption | |].
      * rewrite Haurl. apply seq_NoDup.
      * intros u Hu Hu'. apply Hnew in Hu'.
        apply in_map_iff in Hu. destruct Hu as [f [<- Hf]].
        rewrite Forall_forall in Hfiles. apply Hfiles in Hf. lia.
    + rewrite Hrv. eapply Forall_impl; [|exact Hrev]. simpl. intros; lia.
    + now rewrite Hrv.
  - (* removeFile *)
    destruct (removeFile_spec id w) as (H1 & H2 & H3 & H4 & H5 & H6 & H7).
    constructor; rewrite ?H1, ?H2, ?H3, ?H4, ?H5, ?H6, ?H7; try assumption.
    apply Forall_forall. intros uf Huf. apply filter_In in Huf.
    rewrite Forall_forall in Hst. now apply Hst.
  - (* deleteFile *)
    simpl in Hen.
    destruct (deleteFile_spec file w) as (H1 & H2 & H3 & H4 & H5 & H6 & H7).
    pose proof Hfiles as Hfiles'. rewrite Forall_forall in Hfiles'.
    destruct (Hfiles' _ Hen) as (Hf1 & Hf2 & Hf3).
    constructor; rewrite ?H1, ?H2, ?H3, ?H4, ?H5, ?H6, ?H7; try assumption.
    + apply Forall_forall. intros u Hu. apply filter_In in Hu.
      rewrite Forall_forall in Hlive. now apply Hlive.
    + apply Forall_forall. intros g Hg. apply in_removeFile in Hg.
      destruct Hg as [Hg Hid]. destruct (Hfiles' _ Hg) as (Hg1 & Hg2 & Hg3).
      assert (Hne : CloudFile.url g <> CloudFile.url file).
      { intros E. apply Hid. f_equal.
        eapply NoDup_map_eq; eauto. }
      split; [assumption|]. split.
      * apply filter_In. split; [assumption|].
        now apply negb_true_iff, Nat.eqb_neq.
      * intros Hin. apply in_app_or in Hin. destruct Hin as [Hin|[Hin|[]]]; auto.
    + unfold FileContext.removeFile. now apply NoDup_map_filter.
    + apply Forall_app. split; [assumption|]. now constructor.
    + apply NoDup_app; [assumption | repeat constructor; auto |].
      intros u Hu [<-|[]]. contradiction.
Qed.

Lemma init_Inv : Inv init.
Proof. constructor; simpl; constructor. Qed.

Lemma reachable_Inv w : reachable w -> Inv w.
Proof.
  induction 1 as [|w ev _ IH Hen]; [apply init_Inv | now apply step_Inv].
Qed.

End Sessions.

(* ================================================================= *)
(** * The life of a staging entry *)

Section Lifecycle.
Import UploadPage Platform.

Lemma reachable_run evs :
  forall w, reachable w -> enabledAll w evs -> reachable (run w evs).
Proof.
  induction evs as [|ev evs IH]; intros w Hw Hen; simpl; [exact Hw|].
  destruct Hen as [Hev Hen]. apply IH; [|exact Hen].
  now apply reachable_step.
Qed.

Lemma Forall2_In_l {A B : Type} (R : A -> B -> Prop) l l' a :
  Forall2 R l l' -> In a l -> exists b, In b l' /\ R a b.
Proof.
  induction 1 as [|x y l l' Hxy _ IH]; intros Hin; [contradiction|].
  destruct Hin as [->|Hin].
  - exists y. split; [now left | exact Hxy].
  - destruct (IH Hin) as [b [Hb Hab]]. exists b. split; [now right | exact Hab].
Qed.

Lemma Forall2_In_r {A B : Type} (R : A -> B -> Prop) l l' b :
  Forall2 R l l' -> In b l' -> exists a, In a l /\ R a b.
Proof.
  induction 1 as [|x y l l' Hxy _ IH]; intros Hin; [contradiction|].
  destruct Hin as [->|Hin].
  - exists x. split; [now left | exact Hxy].
  - destruct (IH Hin) as [a [Ha Hab]]. exists a. split; [now right | exact Hab].
Qed.

(** C1: in every step of a session the progress of each staging entry does
    not decrease: a firing of a timer keeps the entries in place, none goes
    down and none exceeds 100, new entries start at 0, and the other events
    change no progress.  An entry of the timer whose progress reaches 100 in
    a firing stands at exactly 100 and is completed, and a catalog entry
    built from it, with a blob URL minted in that firing, is then in the
    catalog.  Conversely a catalog entry that was not there before the step
    was put there by a firing of a timer, for a staging entry of that timer
    that now stands at exactly 100, completed.  No staging entry ever has the
    status error, so none that failed is in the catalog. *)
Theorem staging_progress_and_insertion (w : World) (ev : Event) :
  reachable w -> enabled w ev ->
  let w' := step w ev in
  (forall interval now rnd, ev = Tick interval now rnd ->
     Forall2 (fun uf uf' =>
        ticked uf uf' /\
        (Platform.target interval (intervals w) = Some (UploadingFile.id uf) ->
         (100 <= UploadingFile.progress uf')%Q ->
           UploadingFile.progress uf' = 100%Q /\
           UploadingFile.status uf' = completed /\
           exists f, In f (files w') /\ ~ In f (files w) /\ inserted uf' f /\
                     In (CloudFile.url f) (objectURLs w') /\
                     ~ In (CloudFile.url f) (objectURLs w)))
       (uploadingFiles w) (uploadingFiles w')) /\
  (forall fs ids, ev = HandleFiles fs ids ->
     exists new,
       uploadingFiles w' = (uploadingFiles w ++ new)%list /\
       Forall (fun uf => UploadingFile.progress uf = 0%Q /\
                         UploadingFile.status uf = uploading) new) /\
  (forall id, ev = RemoveUploading id ->
     forall uf, In uf (uploadingFiles w') -> In uf (uploadingFiles w)) /\
  (forall file, ev = DeleteFile file -> uploadingFiles w' = uploadingFiles w) /\
  (forall f, In f (files w') -> ~ In f (files w) ->
     exists interval now rnd uf',
       ev = Tick interval now rnd /\
       In uf' (uploadingFiles w') /\
       Platform.target interval (intervals w) = Some (UploadingFile.id uf') /\
       UploadingFile.progress uf' = 100%Q /\
       UploadingFile.status uf' = completed /\
       inserted uf' f /\
       In (CloudFile.url f) (objectURLs w') /\
       ~ In (CloudFile.url f) (objectURLs w)) /\
  (forall uf, In uf (uploadingFiles w') -> UploadingFile.status uf <> error).
Proof.
  intros Hreach Hen w'.
  pose proof (reachable_Inv _ Hreach) as HI.
  assert (HI' : Inv w') by (apply step_Inv; assumption).
  assert (Hfresh : forall f, In f (files w') -> nextObjectURL w <= CloudFile.url f ->
                     ~ In f (files w) /\ In (CloudFile.url f) (objectURLs w') /\
                     ~ In (CloudFile.url f) (objectURLs w)).
  { intros f Hf Hurl. split; [|split].
    - intros Hin. pose proof (inv_files _ HI) as H. rewrite Forall_forall in H.
      apply H in Hin. lia.
    - pose proof (inv_files _ HI') as H. rewrite Forall_forall in H.
      now apply H in Hf.
    - intros Hin. pose proof (inv_live _ HI) as H. rewrite Forall_forall in H.
      apply H in Hin. lia. }
  split; [|split; [|split; [|split; [|split]]]].
  - intros interval now rnd ->. subst w'. simpl in *.
    destruct Hen as [Hset Hrnd].
    destruct (target interval (intervals w)) as [id|] eqn:Et; [|congruence].
    destruct (tick_spec interval id now rnd w Hrnd (inv_staging _ HI))
      as (_ & _ & _ & _ & _ & _ & Hrel).
    eapply Forall2_impl; [|exact Hrel]. simpl.
    intros uf uf' (Ht & Hok & Hne & Hst & Hcomp). split; [exact Ht|].
    intros Hid Hge. injection Hid as Hid'.
    destruct (Hcomp (eq_sym Hid')) as [(Hlt & _)|(Hdn & H100 & _ & f & Hf & Hurl & Hins)].
    { elim (Qlt_not_le _ _ Hlt Hge). }
    split; [exact H100|]. split; [exact Hdn|].
    exists f. destruct (Hfresh f Hf Hurl) as (F1 & F2 & F3).
    split; [exact Hf|]. split; [exact F1|]. split; [exact Hins|].
    split; [exact F2 | exact F3].
  - intros fs ids ->. subst w'. simpl.
    destruct (handleFiles_spec fs ids w) as (H1 & _).
    eexists. split; [exact H1|].
    eapply Forall_impl; [|apply newUploadingFiles_fresh, accepts_supported].
    simpl. tauto.
  - intros id -> uf Huf. subst w'. simpl in Huf. now apply filter_In in Huf.
  - intros file ->. reflexivity.
  - intros f Hf Hnf. subst w'.
    destruct ev as [fs ids|interval now rnd|id|file]; simpl in Hf.
    + destruct (handleFiles_spec fs ids w) as (_ & H2 & _).
      rewrite H2 in Hf. contradiction.
    + simpl in Hen. destruct Hen as [Hset Hrnd].
      simpl in Hfresh, HI'. cbn [step].
      destruct (target interval (intervals w)) as [id|] eqn:Et; [|congruence].
      destruct (tick_spec interval id now rnd w Hrnd (inv_staging _ HI))
        as (_ & _ & _ & _ & _ & (added & Hadd & Haurl & Hall) & _).
      pose proof Hf as Hf'. rewrite Hadd in Hf'. apply in_app_or in Hf'.
      destruct Hf' as [Hf'|Hf']; [contradiction|].
      rewrite Forall_forall in Hall.
      destruct (Hall f Hf') as (uf' & Hin & Hid & Hdn & H100 & Hins).
      assert (Hurl : nextObjectURL w <= CloudFile.url f).
      { assert (Hu : In (CloudFile.url f) (map CloudFile.url added))
          by now apply in_map.
        rewrite Haurl in Hu. apply in_seq in Hu. lia. }
      destruct (Hfresh f Hf Hurl) as (_ & F2 & F3).
      exists interval, now, rnd, uf'.
      split; [reflexivity|]. split; [exact Hin|]. split; [congruence|].
      split; [exact H100|]. split; [exact Hdn|]. split; [exact Hins|].
      split; [exact F2 | exact F3].
    + contradiction.
    + apply in_removeFile in Hf. tauto.
  - intros uf Huf. pose proof (inv_staging _ HI') as H.
    rewrite Forall_forall in H. apply H in Huf. unfold stagingOk in Huf. tauto.
Qed.


Lemma isRandomb_sound r : isRandomb r = true -> isRandom r.
Proof.
  unfold isRandomb, isRandom. rewrite andb_true_iff, negb_true_iff.
  intros [H0 H1]. split.
  - now apply Qle_bool_iff.
  - apply Qnot_le_lt. intros H. apply Qle_bool_iff in H. congruence.
Qed.

Lemma enabledb_sound w ev : enabledb w ev = true -> enabled w ev.
Proof.
  destruct ev as [fs ids|interval now rnd|id|file]; simpl.
  - trivial.
  - destruct (target interval (intervals w)); [|discriminate].
    intros H. split; [discriminate|].
    apply Forall_forall. intros r Hr. apply isRandomb_sound.
    rewrite forallb_forall in H. now apply H.
  - intros H. apply existsb_exists in H. destruct H as [uf [Hin Hid]].
    exists uf. split; [exact Hin | now apply String.eqb_eq].
  - destruct (in_dec CloudFile_eq_dec file (files w)); [trivial | discriminate].
Qed.

Lemma enabledAllb_sound evs :
  forall w, enabledAllb w evs = true -> enabledAll w evs.
Proof.
  induction evs as [|ev evs IH]; intros w; simpl; [trivial|].
  rewrite andb_true_iff. intros [H1 H2]. split.
  - now apply enabledb_sound.
  - now apply IH.
Qed.

Lemma reachable_session evs :
  enabledAllb init evs = true -> reachable (run init evs).
Proof.
  intros H. apply reachable_run; [apply reachable_init|].
  now apply enabledAllb_sound.
Qed.

Lemma staging_progress_and_insertion_witness :
  let clip := File.mk "a.mp4" "video/mp4" 10485760 in
  let draw := (29 # 30)%Q in
  let w := run init [HandleFiles [clip] ["abc"];
                     Tick 0 1 [draw]; Tick 0 2 [draw]; Tick 0 3 [draw];
                     Tick 0 4 [draw]; Tick 0 5 [draw]; Tick 0 6 [draw]] in
  reachable w /\ enabled w (Tick 0 7 [draw]) /\
  forall uf, In uf (uploadingFiles (step w (Tick 0 7 [draw]))) ->
             UploadingFile.status uf <> error.
Proof.
  intros clip draw w.
  assert (Hreach : reachable w).
  { apply reachable_session. vm_compute. reflexivity. }
  assert (Hen : enabled w (Tick 0 7 [draw])).
  { apply enabledb_sound. vm_compute. reflexivity. }
  split; [exact Hreach|]. split; [exact Hen|].
  exact (proj2 (proj2 (proj2 (proj2 (proj2
    (staging_progress_and_insertion w (Tick 0 7 [draw]) Hreach Hen)))))).
Defined.

End Lifecycle.

(* ================================================================= *)
(** * Completion and cancellation *)

Section Terminal.
Import UploadPage Platform.

Lemma target_some_in interval ts id :
  target interval ts = Some id -> In (interval, id) ts.
Proof.
  induction ts as [|[h i] ts IH]; simpl; [discriminate|].
  destruct (Nat.eqb_spec h interval) as [->|_].
  - intros H. injection H as ->. now left.
  - intros H. right. now apply IH.
Qed.

Lemma run_Inv evs : forall w, Inv w -> enabledAll w evs -> Inv (run w evs).
Proof.
  induction evs as [|ev evs IH]; intros w HI Hen; simpl; [exact HI|].
  destruct Hen as [Hev Hen]. apply IH; [now apply step_Inv | exact Hen].
Qed.

Lemma timer_stays_cleared interval w ev :
  Inv w -> enabled w ev ->
  target interval (intervals w) = None -> interval < nextInterval w ->
  target interval (intervals (step w ev)) = None /\
  interval < nextInterval (step w ev).
Proof.
  intros HI Hen Hnone Hlt.
  destruct ev as [fs ids|h now rnd|id|file]; simpl.
  - destruct (handleFiles_spec fs ids w) as (_ & _ & H3 & H4 & _).
    rewrite H3, H4, target_app, Hnone. split; [|lia].
    apply target_none_iff. intros Hin. apply in_map_iff in Hin.
    destruct Hin as [[h i] [Hh Hin]]. simpl in Hh. subst h.
    apply in_combine_l, in_seq in Hin. lia.
  - destruct Hen as [Hset Hrnd].
    destruct (target h (intervals w)) as [id|] eqn:Et; [|congruence].
    destruct (tick_spec h id now rnd w Hrnd (inv_staging _ HI))
      as (Hn & _ & Hiv & _).
    rewrite Hn. split; [|exact Hlt].
    destruct Hiv as [->| ->]; [exact Hnone|].
    destruct (Nat.eq_dec interval h) as [->|Hne].
    + apply target_cleared.
    + now rewrite target_cleared_other.
  - now split.
  - now split.
Qed.

Lemma timer_never_set_again interval evs :
  forall w, Inv w -> enabledAll w evs ->
    target interval (intervals w) = None -> interval < nextInterval w ->
    target interval (intervals (run w evs)) = None.
Proof.
  induction evs as [|ev evs IH]; intros w HI Hen Hnone Hlt; simpl; [exact Hnone|].
  destruct Hen as [Hev Hen].
  destruct (timer_stays_cleared interval w ev HI Hev Hnone Hlt) as [H1 H2].
  apply IH; auto. now apply step_Inv.
Qed.

Lemma completed_stays w ev uf :
  Inv w -> enabled w ev ->
  In uf (uploadingFiles w) -> UploadingFile.status uf = completed ->
  ev <> RemoveUploading (UploadingFile.id uf) ->
  In uf (uploadingFiles (step w ev)).
Proof.
  intros HI Hen Hin Hdone Hev.
  destruct ev as [fs ids|h now rnd|id|file]; simpl.
  - destruct (handleFiles_spec fs ids w) as (H1 & _).
    rewrite H1. apply in_or_app. now left.
  - destruct Hen as [Hset Hrnd].
    destruct (target h (intervals w)) as [id|] eqn:Et; [|congruence].
    destruct (tick_spec h id now rnd w Hrnd (inv_staging _ HI))
      as (_ & _ & _ & _ & _ & _ & Hrel).
    destruct (Forall2_In_l _ _ _ _ Hrel Hin) as [uf' [Hin' (_ & _ & _ & Hst & _)]].
    now rewrite <- (Hst Hdone).
  - apply filter_In. split; [exact Hin|].
    apply negb_true_iff, String.eqb_neq. congruence.
  - exact Hin.
Qed.

Lemma completed_stays_listed uf evs :
  forall w, Inv w -> enabledAll w evs ->
    In uf (uploadingFiles w) -> UploadingFile.status uf = completed ->
    ~ In (RemoveUploading (UploadingFile.id uf)) evs ->
    In uf (uploadingFiles (run w evs)).
Proof.
  induction evs as [|ev evs IH]; intros w HI Hen Hin Hdone Hrm; simpl; [exact Hin|].
  destruct Hen as [Hev Hen]. apply IH; auto.
  - now apply step_Inv.
  - apply completed_stays; auto. intros ->. apply Hrm. now left.
  - intros H. apply Hrm. now right.
Qed.

(** C6, as stated, fails: after the firing that completes it, the entry is
    still in [uploadingFiles], with the status completed. *)
Lemma completed_entry_listed_counterexample :
  ~ (forall (w : World) (ev : Event),
        reachable w -> enabled w ev ->
        forall uf, In uf (uploadingFiles (step w ev)) ->
                   UploadingFile.status uf = uploading).
Proof.
  intros H.
  pose (clip := File.mk "a.mp4" "video/mp4" 10485760).
  pose (draw := (29 # 30)%Q).
  pose (w := run init [HandleFiles [clip] ["abc"];
                       Tick 0 1 [draw]; Tick 0 2 [draw]; Tick 0 3 [draw];
                       Tick 0 4 [draw]; Tick 0 5 [draw]; Tick 0 6 [draw]]).
  assert (Hreach : reachable w).
  { apply reachable_session. vm_compute. reflexivity. }
  assert (Hen : enabled w (Tick 0 7 [draw])).
  { apply enabledb_sound. vm_compute. reflexivity. }
  specialize (H w (Tick 0 7 [draw]) Hreach Hen
                (UploadingFile.mk clip 100%Q completed "abc")).
  assert (Hin : In (UploadingFile.mk clip 100%Q completed "abc")
                   (uploadingFiles (step w (Tick 0 7 [draw])))).
  { vm_compute. left. reflexivity. }
  specialize (H Hin). discriminate H.
Qed.

(** C6, amended: completed is terminal.  When a firing of a timer leaves an
    entry of that timer completed, the entry stands at exactly 100 and the
    timer is cleared: whatever happens afterwards it is never set again, so
    it never fires again.  The entry is not discarded: it stays in
    [uploadingFiles], unchanged, for as long as [removeFile] is not called
    with its id.  No entry ever takes the status error. *)
Theorem completed_is_terminal (w : World) (interval : nat) (now : N)
  (rnd : list Q) (uf' : UploadingFile.t) :
  reachable w -> enabled w (Tick interval now rnd) ->
  let w' := step w (Tick interval now rnd) in
  In uf' (uploadingFiles w') ->
  target interval (intervals w) = Some (UploadingFile.id uf') ->
  UploadingFile.status uf' = completed ->
  UploadingFile.progress uf' = 100%Q /\
  (forall evs, enabledAll w' evs ->
     target interval (intervals (run w' evs)) = None /\
     forall now' rnd', ~ enabled (run w' evs) (Tick interval now' rnd')) /\
  (forall evs, enabledAll w' evs ->
     ~ In (RemoveUploading (UploadingFile.id uf')) evs ->
     In uf' (uploadingFiles (run w' evs))) /\
  (forall evs uf, enabledAll w' evs -> In uf (uploadingFiles (run w' evs)) ->
     UploadingFile.status uf <> error).
Proof.
  intros Hreach Hen w' Hin Hid Hdone.
  pose proof (reachable_Inv _ Hreach) as HI.
  assert (HI' : Inv w') by (apply step_Inv; assumption).
  assert (Hlt : interval < nextInterval w).
  { apply target_some_in in Hid. pose proof (inv_intervals _ HI) as H.
    rewrite Forall_forall in H. now apply H in Hid. }
  assert (Hfacts : UploadingFile.progress uf' = 100%Q /\
                   target interval (intervals w') = None /\
                   nextInterval w' = nextInterval w).
  { subst w'. simpl in *. destruct Hen as [Hset Hrnd]. rewrite Hid in *.
    destruct (tick_spec interval (UploadingFile.id uf') now rnd w Hrnd
                (inv_staging _ HI)) as (Hn & _ & _ & _ & _ & _ & Hrel).
    destruct (Forall2_In_r _ _ _ _ Hrel Hin)
      as [uf [Huf ((_ & Hsame & _) & _ & _ & _ & Hcomp)]].
    destruct (Hcomp (eq_sym Hsame)) as [(_ & _ & Hnot)|(_ & H100 & Hcl & _)].
    - contradiction.
    - split; [exact H100|]. split; [|exact Hn].
      rewrite Hcl. apply target_cleared. }
  destruct Hfacts as (H100 & Hnone & Hn).
  split; [exact H100|]. split; [|split].
  - intros evs Hevs.
    assert (Hgone : target interval (intervals (run w' evs)) = None).
    { apply timer_never_set_again; auto. lia. }
    split; [exact Hgone|].
    intros now' rnd' [Hset _]. contradiction.
  - intros evs Hevs Hrm. now apply completed_stays_listed.
  - intros evs uf Hevs Huf.
    pose proof (inv_staging _ (run_Inv evs w' HI' Hevs)) as H.
    rewrite Forall_forall in H. apply H in Huf. unfold stagingOk in Huf. tauto.
Qed.

Lemma completed_is_terminal_witness :
  let clip := File.mk "a.mp4" "video/mp4" 10485760 in
  let draw := (29 # 30)%Q in
  let w := run init [HandleFiles [clip] ["abc"];
                     Tick 0 1 [draw]; Tick 0 2 [draw]; Tick 0 3 [draw];
                     Tick 0 4 [draw]; Tick 0 5 [draw]; Tick 0 6 [draw]] in
  let w' := step w (Tick 0 7 [draw]) in
  let entry := UploadingFile.mk clip 100%Q completed "abc" in
  reachable w /\ enabled w (Tick 0 7 [draw]) /\
  In entry (uploadingFiles w') /\
  target 0 (intervals w) = Some "abc" /\
  (forall evs, enabledAll w' evs ->
     target 0 (intervals (run w' evs)) = None /\
     forall now' rnd', ~ enabled (run w' evs) (Tick 0 now' rnd')) /\
  (forall evs, enabledAll w' evs -> ~ In (RemoveUploading "abc") evs ->
     In entry (uploadingFiles (run w' evs))).
Proof.
  intros clip draw w w' entry.
  assert (Hreach : reachable w).
  { apply reachable_session. vm_compute. reflexivity. }
  assert (Hen : enabled w (Tick 0 7 [draw])).
  { apply enabledb_sound. vm_compute. reflexivity. }
  assert (Hin : In entry (uploadingFiles w')).
  { vm_compute. left. reflexivity. }
  assert (Hid : target 0 (intervals w) = Some "abc").
  { vm_compute. reflexivity. }
  split; [exact Hreach|]. split; [exact Hen|].
  split; [exact Hin|]. split; [exact Hid|].
  split.
  - exact (proj1 (proj2
      (completed_is_terminal w 0 7 [draw] entry Hreach Hen Hin Hid eq_refl))).
  - exact (proj1 (proj2 (proj2
      (completed_is_terminal w 0 7 [draw] entry Hreach Hen Hin Hid eq_refl)))).
Defined.

Lemma run_repeat_fixed w ev :
  step w ev = w -> forall n, run w (repeat ev n) = w.
Proof.
  intros H. induction n as [|n IH]; [reflexivity|].
  change (run (step w ev) (repeat ev n) = w). now rewrite H.
Qed.

(** C2, on the session "stage one file, let the timer fire once, press the
    cross": the entry is gone from [uploadingFiles], and timer 0 is still
    set, can still fire, fires without effect, and is still set after any
    number of firings: [removeFile] does not call [clearInterval]. *)
Theorem removed_entry_timer_still_set :
  let clip := File.mk "a.mp4" "video/mp4" 10485760 in
  let half := (1 # 2)%Q in
  let w := run init [HandleFiles [clip] ["abc"]; Tick 0 1 [half];
                     RemoveUploading "abc"] in
  reachable w /\
  uploadingFiles w = [] /\
  intervals w = [(0, "abc")] /\
  (forall now, enabled w (Tick 0 now [half]) /\ step w (Tick 0 now [half]) = w) /\
  (forall n, intervals (run w (repeat (Tick 0 2 [half]) n)) = [(0, "abc")]).
Proof.
  intros clip half w.
  assert (Hstep : forall now, step w (Tick 0 now [half]) = w).
  { intros now. vm_compute. reflexivity. }
  split; [apply reachable_session; vm_compute; reflexivity|].
  split; [vm_compute; reflexivity|].
  split; [vm_compute; reflexivity|].
  split.
  - intros now. split; [|apply Hstep].
    apply enabledb_sound. vm_compute. reflexivity.
  - intros n. rewrite (run_repeat_fixed w _ (Hstep 2%N)).
    vm_compute. reflexivity.
Qed.

End Terminal.

(* ================================================================= *)
(** * Deletion from the catalog *)

Section Deletion.
Import FileContext Platform.

Lemma revoked_step w ev :
  Inv w -> enabled w ev -> exists more, revoked (step w ev) = (revoked w ++ more)%list.
Proof.
  intros HI Hen. destruct ev as [fs ids|h now rnd|id|file]; simpl.
  - destruct (handleFiles_spec fs ids w) as (_ & _ & _ & _ & _ & _ & H7).
    exists []. now rewrite app_nil_r.
  - destruct Hen as [Hset Hrnd].
    destruct (target h (intervals w)) as [id|] eqn:Et; [|congruence].
    destruct (tick_spec h id now rnd w Hrnd (inv_staging _ HI)) as (_ & Hrv & _).
    exists []. now rewrite app_nil_r.
  - exists []. now rewrite app_nil_r.
  - now exists [CloudFile.url file].
Qed.

Lemma revoked_grows evs :
  forall w, Inv w -> enabledAll w evs ->
    exists more, revoked (run w evs) = (revoked w ++ more)%list.
Proof.
  induction evs as [|ev evs IH]; intros w HI Hen; simpl.
  - exists []. now rewrite app_nil_r.
  - destruct Hen as [Hev Hen].
    destruct (revoked_step w ev HI Hev) as [m1 H1].
    destruct (IH _ (step_Inv _ _ HI Hev) Hen) as [m2 H2].
    exists (m1 ++ m2)%list. now rewrite H2, H1, app_assoc.
Qed.

(** C4, as stated, fails: when two catalog entries share an id, deleting
    one takes both out of the catalog and revokes the URL of the one that was
    passed only; the URL of the other stays registered. *)
Lemma deleteFile_shared_id_counterexample :
  ~ (forall (w : World) (file g : CloudFile.t),
        reachable w -> In file (files w) -> In g (files w) ->
        ~ In g (files (step w (DeleteFile file))) ->
        ~ In (CloudFile.url g) (objectURLs (step w (DeleteFile file)))).
Proof.
  intros H.
  pose (clip := File.mk "a.mp4" "video/mp4" 10485760).
  pose (song := File.mk "b.mp3" "audio/mpeg" 2048).
  pose (draw := (29 # 30)%Q).
  pose (w := run init [HandleFiles [clip; song] ["abc"; "abc"];
                       Tick 0 1 [draw; draw]; Tick 0 2 [draw; draw];
                       Tick 0 3 [draw; draw]; Tick 0 4 [draw; draw];
                       Tick 0 5 [draw; draw]; Tick 0 6 [draw; draw];
                       Tick 0 7 [draw; draw]]).
  pose (a := CloudFile.mk "abc" "a.mp4" video 10485760 0 7 None).
  pose (b := CloudFile.mk "abc" "b.mp3" audio 2048 1 7 None).
  assert (Hreach : reachable w).
  { apply reachable_session. vm_compute. reflexivity. }
  assert (Hfiles : files w = [a; b]) by (vm_compute; reflexivity).
  apply (H w a b Hreach).
  - rewrite Hfiles. now left.
  - rewrite Hfiles. right. now left.
  - vm_compute. intros [].
  - vm_compute. left. reflexivity.
Qed.

(** C4, amended: deleting a listed file with [deleteFile] of the files page.
    Before the deletion the blob URL of the file is registered and was never
    revoked.  [deleteFile] takes the entries with the id of the file out of
    the catalog, so that [getFile] on the id finds nothing and the other
    entries stay; it revokes the URL of the file, by one call of
    [revokeObjectURL], and in no continuation of the session in which
    [deleteFile] is called on listed files only is that URL revoked a second
    time.  When the ids of the catalog are distinct, the one entry that
    leaves the catalog is this file, and its URL is released.  [removeFile]
    on an id that is absent changes nothing and is no error, it is
    idempotent, and [getFile] after [removeFile] finds nothing; a second
    [deleteFile] of the same file changes neither the catalog nor the
    registry of URLs, and calls [revokeObjectURL] again.  The catalog's own
    [removeFile] releases nothing: it leaves the registry and the revoked
    URLs as they are. *)
Theorem deleteFile_removes_and_releases (w : World) (file : CloudFile.t) :
  reachable w -> In file (files w) ->
  let w' := step w (DeleteFile file) in
  (In (CloudFile.url file) (objectURLs w) /\
   ~ In (CloudFile.url file) (revoked w)) /\
  (files w' = removeFile (files w) (CloudFile.id file) /\
   getFile (files w') (CloudFile.id file) = None /\
   forall f, In f (files w') <-> In f (files w) /\ CloudFile.id f <> CloudFile.id file) /\
  (~ In (CloudFile.url file) (objectURLs w') /\
   revoked w' = (revoked w ++ [CloudFile.url file])%list /\
   forall evs, enabledAll w' evs ->
     count_occ Nat.eq_dec (revoked (run w' evs)) (CloudFile.url file) = 1) /\
  (NoDup (map CloudFile.id (files w)) ->
   forall g, In g (files w) -> ~ In g (files w') ->
     g = file /\ ~ In (CloudFile.url g) (objectURLs w')) /\
  (forall fs id, getFile fs id = None -> removeFile fs id = fs) /\
  (forall fs id, removeFile (removeFile fs id) id = removeFile fs id) /\
  (files (step w' (DeleteFile file)) = files w' /\
   objectURLs (step w' (DeleteFile file)) = objectURLs w') /\
  (forall fs id, getFile (removeFile fs id) id = None) /\
  revoked (step w' (DeleteFile file))
  = (revoked w' ++ [CloudFile.url file])%list /\
  (forall id,
     objectURLs (exec (setFiles (fun prev => removeFile prev id)) w)
     = objectURLs w /\
     revoked (exec (setFiles (fun prev => removeFile prev id)) w) = revoked w).
Proof.
  intros Hreach Hin w'.
  pose proof (reachable_Inv _ Hreach) as HI.
  assert (Hen : enabled w (DeleteFile file)) by exact Hin.
  assert (HI' : Inv w') by (apply step_Inv; assumption).
  pose proof (inv_files _ HI) as Hfiles. rewrite Forall_forall in Hfiles.
  destruct (Hfiles _ Hin) as (_ & Hlive & Hnot).
  assert (Hgone : ~ In (CloudFile.url file) (objectURLs w')).
  { subst w'. simpl. intros H. apply filter_In in H. destruct H as [_ H].
    apply negb_true_iff, Nat.eqb_neq in H. now apply H. }
  split; [now split|].
  split.
  { split; [reflexivity|]. split; [apply getFile_removeFile|].
    intros f. apply in_removeFile. }
  split.
  { split; [exact Hgone|]. split; [reflexivity|].
    intros evs Hevs.
    destruct (revoked_grows evs w' HI' Hevs) as [more Hmore].
    apply NoDup_count_occ'.
    - apply (inv_revoked_once _ (run_Inv evs w' HI' Hevs)).
    - rewrite Hmore. apply in_or_app. left. subst w'. simpl.
      apply in_or_app. right. now left. }
  split.
  { intros Hnd g Hg Hng.
    assert (Hid : CloudFile.id g = CloudFile.id file).
    { destruct (string_dec (CloudFile.id g) (CloudFile.id file)) as [E|E]; [exact E|].
      elim Hng. subst w'. simpl. now apply in_removeFile. }
    assert (g = file) by (eapply NoDup_map_eq; eauto).
    subst g. now split. }
  split; [intros fs id; apply removeFile_absent|].
  split; [intros fs id; apply removeFile_idempotent|].
  split.
  { subst w'. simpl. split.
    - apply removeFile_idempotent.
    - apply forallb_filter_id, forallb_forall. intros u Hu.
      now apply filter_In in Hu. }
  split; [intros fs id; apply getFile_removeFile|].
  split; [reflexivity|].
  intros id. split; reflexivity.
Qed.

Lemma deleteFile_removes_and_releases_witness :
  let clip := File.mk "a.mp4" "video/mp4" 10485760 in
  let draw := (29 # 30)%Q in
  let w := run init [HandleFiles [clip] ["abc"];
                     Tick 0 1 [draw]; Tick 0 2 [draw]; Tick 0 3 [draw];
                     Tick 0 4 [draw]; Tick 0 5 [draw]; Tick 0 6 [draw];
                     Tick 0 7 [draw]] in
  let file := CloudFile.mk "abc" "a.mp4" video 10485760 0 7 None in
  let w' := step w (DeleteFile file) in
  reachable w /\ In file (files w) /\
  ~ In (CloudFile.url file) (objectURLs w') /\
  revoked w' = (revoked w ++ [CloudFile.url file])%list /\
  forall evs, enabledAll w' evs ->
    count_occ Nat.eq_dec (revoked (run w' evs)) (CloudFile.url file) = 1.
Proof.
  intros clip draw w file w'.
  assert (Hreach : reachable w).
  { apply reachable_session. vm_compute. reflexivity. }
  assert (Hin : In file (files w)).
  { vm_compute. left. reflexivity. }
  split; [exact Hreach|]. split; [exact Hin|].
  exact (proj1 (proj2 (proj2
    (deleteFile_removes_and_releases w file Hreach Hin)))).
Defined.

End Deletion.

(* ================================================================= *)
(** * Identity of entries *)

Section Identity.
Import UploadPage Platform.

Lemma map_snd_combine_seq {B : Type} (l : list B) :
  forall n, map snd (combine (seq n (length l)) l) = l.
Proof.
  induction l as [|b l IH]; intros n; simpl; [reflexivity|].
  now rewrite IH.
Qed.

Lemma map_snd_combine_seq' {A B : Type} (g : A -> B) (l : list A) n :
  map snd (combine (seq n (length l)) (map g l)) = map g l.
Proof. rewrite <- (length_map g l). apply map_snd_combine_seq. Qed.

Lemma NoDup_map_count {A : Type} (g : A -> string) (l : list A) x :
  NoDup (map g l) -> length (filter (fun a => String.eqb (g a) x) l) <= 1.
Proof.
  induction l as [|a l IH]; simpl; intros H; [lia|].
  inversion H as [|? ? Ha Hl]; subst.
  destruct (String.eqb_spec (g a) x) as [E|E]; simpl; [|now apply IH].
  assert (Hz : filter (fun a0 => String.eqb (g a0) x) l = []).
  { destruct (filter (fun a0 => String.eqb (g a0) x) l) as [|b r] eqn:Ef;
      [reflexivity|].
    assert (Hb : In b (filter (fun a0 => String.eqb (g a0) x) l))
      by (rewrite Ef; now left).
    apply filter_In in Hb. destruct Hb as [Hb Hx].
    apply String.eqb_eq in Hx. elim Ha. rewrite E, <- Hx. now apply in_map. }
  rewrite Hz. simpl. lia.
Qed.

Lemma advance_ids interval now r uf w :
  let w' := snd (advance interval now r uf w) in
  exists added,
    files w' = (files w ++ added)%list /\
    Forall (fun f => CloudFile.id f = UploadingFile.id uf) added /\
    length added <= 1 /\
    ((intervals w' = intervals w /\ added = []) \/
     intervals w' = cleared interval (intervals w)).
Proof.
  unfold advance.
  destruct (Qle_bool 100 _).
  - destruct (getFileType (UploadingFile.file uf)) as [k|]; simpl.
    + eexists [_]. split; [reflexivity|]. split; [|split; [simpl; lia | now right]].
      now constructor.
    + exists []. rewrite app_nil_r. split; [reflexivity|].
      split; [constructor|]. split; [simpl; lia | now right].
  - simpl. exists []. rewrite app_nil_r. split; [reflexivity|].
    split; [constructor|]. split; [simpl; lia | now left].
Qed.

Lemma mapTick_added interval id now :
  forall prev rnd w,
    let w' := snd (mapTick interval id now rnd prev w) in
    exists added,
      files w' = (files w ++ added)%list /\
      Forall (fun f => CloudFile.id f = id) added /\
      length added
      <= length (filter (fun uf => String.eqb (UploadingFile.id uf) id) prev) /\
      ((intervals w' = intervals w /\ added = []) \/
       intervals w' = cleared interval (intervals w)).
Proof.
  induction prev as [|uf rest IH]; intros rnd w; simpl.
  - exists []. rewrite app_nil_r. split; [reflexivity|].
    split; [constructor|]. split; [simpl; lia | now left].
  - destruct (String.eqb_spec (UploadingFile.id uf) id) as [Hid|Hid]; unfold bind.
    + pose proof (advance_ids interval now (hd 0%Q rnd) uf w) as Ha.
      destruct (advance interval now (hd 0%Q rnd) uf w) as [uf' w1].
      simpl in Ha. destruct Ha as (a1 & Hf1 & Hall1 & Hlen1 & Hiv1).
      specialize (IH (tl rnd) w1).
      destruct (mapTick interval id now (tl rnd) rest w1) as [rest' w2].
      simpl in *. destruct IH as (a2 & Hf2 & Hall2 & Hlen2 & Hiv2).
      exists (a1 ++ a2)%list. split; [|split; [|split]].
      * now rewrite Hf2, Hf1, app_assoc.
      * apply Forall_app. split; [|exact Hall2].
        eapply Forall_impl; [|exact Hall1]. simpl. congruence.
      * rewrite length_app. lia.
      * destruct Hiv1 as [[E1 ->]|E1], Hiv2 as [[E2 ->]|E2].
        -- left. split; [congruence | reflexivity].
        -- right. congruence.
        -- right. congruence.
        -- right. rewrite E2, E1. apply cleared_idem.
    + specialize (IH rnd w).
      destruct (mapTick interval id now rnd rest w) as [rest' w2].
      simpl in *. exact IH.
Qed.

Lemma tick_ids interval id now rnd w :
  let w' := exec (tick interval id now rnd) w in
  map UploadingFile.id (uploadingFiles w') = map UploadingFile.id (uploadingFiles w) /\
  exists added,
    files w' = (files w ++ added)%list /\
    Forall (fun f => CloudFile.id f = id) added /\
    length added
    <= length (filter (fun uf => String.eqb (UploadingFile.id uf) id)
                      (uploadingFiles w)) /\
    ((intervals w' = intervals w /\ added = []) \/
     intervals w' = cleared interval (intervals w)).
Proof.
  unfold exec, tick.
  pose proof (mapTick_ids interval id now (uploadingFiles w) rnd w) as H1.
  pose proof (mapTick_added interval id now (uploadingFiles w) rnd w) as H2.
  destruct (mapTick interval id now rnd (uploadingFiles w) w) as [next w1].
  simpl in *. split; [exact H1 | exact H2].
Qed.

Lemma incl_app_l {A : Type} (l used more : list A) :
  incl l used -> incl l (used ++ more).
Proof. intros H a Ha. apply in_or_app. left. now apply H. Qed.

Lemma step_IdsOk used w ev :
  IdsOk used w -> NoDup (used ++ assigned ev) ->
  IdsOk (used ++ assigned ev) (step w ev).
Proof.
  intros (S1 & S2 & T1 & T2 & F1 & F2 & FT) Hnd.
  assert (Hweak : forall l : list string, incl l used -> incl l (used ++ assigned ev))
    by (intros l; apply incl_app_l).
  destruct ev as [fs ids|interval now rnd|id|file].
  - (* handleFiles *)
    cbn [step].
    destruct (handleFiles_spec fs ids w) as (H1 & H2 & H3 & H4 & _).
    cbn [assigned] in *.
    set (new := newUploadingFiles (filter accepts fs) ids) in *.
    assert (Hnew : NoDup (map UploadingFile.id new))
      by (eapply NoDup_app_remove_l; exact Hnd).
    assert (Hdisj : forall i, In i used -> ~ In i (map UploadingFile.id new)).
    { intros i Hi Hi'. apply in_split in Hi. destruct Hi as (u1 & u2 & ->).
      rewrite <- app_assoc in Hnd. simpl in Hnd.
      apply NoDup_remove_2 in Hnd. apply Hnd.
      apply in_or_app. right. apply in_or_app. now right. }
    unfold IdsOk. rewrite H1, H2, H3, !map_app, map_snd_combine_seq'.
    repeat split.
    + apply NoDup_app; auto.
    + apply incl_app; [now apply Hweak | apply incl_appr, incl_refl].
    + apply NoDup_app; auto.
    + apply incl_app; [now apply Hweak | apply incl_appr, incl_refl].
    + exact F1.
    + now apply Hweak.
    + intros f Hf Hin. apply in_app_or in Hin. destruct Hin as [Hin|Hin].
      * now apply (FT f Hf).
      * apply (Hdisj (CloudFile.id f)); [|exact Hin].
        apply F2. now apply in_map.
  - (* tick *)
    cbn [step assigned] in *. rewrite app_nil_r in *.
    destruct (target interval (intervals w)) as [id|] eqn:Et;
      [|unfold IdsOk; tauto].
    destruct (tick_ids interval id now rnd w)
      as (Hids & added & Hadd & Hall & Hlen & Hiv).
    assert (Hx : In id (map snd (intervals w))).
    { apply target_some_in in Et. now apply (in_map snd) in Et. }
    assert (Hsub : incl (intervals (exec (tick interval id now rnd) w)) (intervals w)).
    { destruct Hiv as [[-> _]| ->]; [apply incl_refl | apply incl_filter]. }
    assert (Hnd' : NoDup (map snd (intervals (exec (tick interval id now rnd) w)))).
    { destruct Hiv as [[-> _]| ->]; [exact T1 | now apply NoDup_map_filter]. }
    assert (Hone : length added <= 1).
    { pose proof (NoDup_map_count UploadingFile.id (uploadingFiles w) id S1). lia. }
    unfold IdsOk. rewrite Hids, Hadd, map_app.
    split; [exact S1|]. split; [exact S2|]. split; [exact Hnd'|].
    split; [intros i Hi; apply T2; revert Hi; apply incl_map, Hsub|].
    destruct added as [|f [|g added]]; [| |simpl in Hone; lia].
    + simpl. rewrite !app_nil_r.
      split; [exact F1|]. split; [exact F2|].
      intros f Hf Hin. apply (FT f Hf). revert Hin. apply incl_map, Hsub.
    + inversion Hall as [|? ? Hfid _]; subst.
      destruct Hiv as [[_ Hnil]|Hcl]; [discriminate|].
      split; [|split].
      * apply NoDup_app; [exact F1 | repeat constructor; auto |].
        intros i Hi [<-|[]]. apply in_map_iff in Hi.
        destruct Hi as [g [Hg Hgin]]. apply (FT g Hgin). now rewrite Hg.
      * apply incl_app; [exact F2|]. intros i [<-|[]]. now apply T2.
      * intros g Hg Hin. apply in_app_or in Hg. destruct Hg as [Hg|[<-|[]]].
        -- apply (FT g Hg). revert Hin. apply incl_map, Hsub.
        -- rewrite Hcl in Hin. apply in_map_iff in Hin.
           destruct Hin as [[h i] [Hi Hin]]. simpl in Hi. subst i.
           apply filter_In in Hin. destruct Hin as [Hin Hne].
           apply negb_true_iff, Nat.eqb_neq in Hne. simpl in Hne.
           apply target_some_in in Et.
           assert (E : (h, CloudFile.id f) = (interval, CloudFile.id f))
             by (apply (NoDup_map_eq snd (intervals w));
                 [exact T1 | exact Hin | exact Et | reflexivity]).
           injection E as E. contradiction.
  - (* removeFile *)
    cbn [step assigned] in *. rewrite app_nil_r in *.
    unfold IdsOk. simpl. repeat split; auto.
    + now apply NoDup_map_filter.
    + intros i Hi. apply S2. revert Hi. apply incl_map, incl_filter.
  - (* deleteFile *)
    cbn [step assigned] in *. rewrite app_nil_r in *.
    unfold IdsOk. simpl. repeat split; auto.
    + unfold FileContext.removeFile. now apply NoDup_map_filter.
    + intros i Hi. apply F2. revert Hi. apply incl_map, incl_filter.
    + intros f Hf. apply incl_filter in Hf. now apply FT.
Qed.


Lemma run_IdsOk evs :
  forall used w,
    IdsOk used w -> NoDup (used ++ flat_map assigned evs) ->
    IdsOk (used ++ flat_map assigned evs) (run w evs).
Proof.
  induction evs as [|ev evs IH]; intros used w Hok Hnd; simpl in *.
  - now rewrite app_nil_r.
  - rewrite app_assoc in *. apply IH; [|exact Hnd].
    apply step_IdsOk; [exact Hok|].
    eapply NoDup_app_remove_r. exact Hnd.
Qed.

Lemma init_IdsOk : IdsOk [] init.
Proof.
  unfold IdsOk. simpl.
  repeat split; try constructor; try apply incl_refl. contradiction.
Qed.

Lemma step_files_origin w ev f :
  In f (files (step w ev)) ->
  In f (files w) \/
  exists uf, In uf (uploadingFiles w) /\ CloudFile.id f = UploadingFile.id uf.
Proof.
  destruct ev as [fs ids|interval now rnd|id|file]; cbn [step].
  - destruct (handleFiles_spec fs ids w) as (_ & -> & _). now left.
  - destruct (target interval (intervals w)) as [id|]; [|now left].
    destruct (tick_ids interval id now rnd w)
      as (_ & added & -> & Hall & Hlen & _).
    intros Hf. apply in_app_or in Hf. destruct Hf as [Hf|Hf]; [now left|].
    right. rewrite Forall_forall in Hall. rewrite (Hall f Hf).
    destruct (filter (fun uf => String.eqb (UploadingFile.id uf) id)
                     (uploadingFiles w)) as [|uf l] eqn:Ef.
    + destruct added; [contradiction | simpl in Hlen; lia].
    + assert (Huf : In uf (filter (fun uf => String.eqb (UploadingFile.id uf) id)
                                  (uploadingFiles w))) by (rewrite Ef; now left).
      apply filter_In in Huf. destruct Huf as [Huf Hid].
      apply String.eqb_eq in Hid. now exists uf.
  - now left.
  - simpl. intros Hf. apply in_removeFile in Hf. tauto.
Qed.

(** C7, as stated, fails: when [Math.random()] yields the same string
    twice, two staging entries carry the same id. *)
Lemma colliding_ids_counterexample :
  ~ (forall w : World,
        reachable w -> NoDup (map UploadingFile.id (uploadingFiles w))).
Proof.
  intros H.
  pose (clip := File.mk "a.mp4" "video/mp4" 10485760).
  pose (song := File.mk "b.mp3" "audio/mpeg" 2048).
  specialize (H (run init [HandleFiles [clip; song] ["abc"; "abc"]])).
  assert (Hreach : reachable (run init [HandleFiles [clip; song] ["abc"; "abc"]])).
  { apply reachable_session. vm_compute. reflexivity. }
  specialize (H Hreach). vm_compute in H.
  inversion H as [|? ? Hnot _]. apply Hnot. now left.
Qed.

(** C7, amended: the id of a staging entry is the string drawn from
    [Math.random()] when [handleFiles] creates it, and nothing checks it
    against the ids in use.  In a session whose draws are pairwise distinct
    the staging entries have pairwise distinct ids, and so have the catalog
    entries; every id in use is one of the draws.  An id never changes: a
    firing of a timer keeps the id of every staging entry, in place, and an
    entry that enters the catalog carries the id of a staging entry. *)
Theorem ids_unique_when_draws_distinct (evs : list Event) :
  NoDup (flat_map assigned evs) ->
  let w := run init evs in
  NoDup (map UploadingFile.id (uploadingFiles w)) /\
  NoDup (map CloudFile.id (files w)) /\
  (forall uf, In uf (uploadingFiles w) ->
     In (UploadingFile.id uf) (flat_map assigned evs)) /\
  (forall f, In f (files w) -> In (CloudFile.id f) (flat_map assigned evs)) /\
  (forall interval now rnd,
     map UploadingFile.id (uploadingFiles (step w (Tick interval now rnd)))
     = map UploadingFile.id (uploadingFiles w)) /\
  (forall ev f, In f (files (step w ev)) ->
     In f (files w) \/
     exists uf, In uf (uploadingFiles w) /\ CloudFile.id f = UploadingFile.id uf).
Proof.
  intros Hnd w.
  destruct (run_IdsOk evs [] init init_IdsOk Hnd)
    as (S1 & S2 & _ & _ & F1 & F2 & _).
  simpl in S2, F2. fold w in S1, S2, F1, F2.
  split; [exact S1|]. split; [exact F1|].
  split; [intros uf Huf; apply S2; now apply in_map|].
  split; [intros f Hf; apply F2; now apply in_map|].
  split.
  - intros interval now rnd. cbn [step].
    destruct (target interval (intervals w)) as [id|]; [|reflexivity].
    apply tick_ids.
  - intros ev f. apply step_files_origin.
Qed.

Lemma ids_unique_when_draws_distinct_witness :
  let clip := File.mk "a.mp4" "video/mp4" 10485760 in
  let song := File.mk "b.mp3" "audio/mpeg" 2048 in
  let evs := [HandleFiles [clip; song] ["abc"; "xyz"]; Tick 0 1 [(1 # 2)%Q]] in
  NoDup (flat_map assigned evs) /\
  NoDup (map UploadingFile.id (uploadingFiles (run init evs))).
Proof.
  intros clip song evs.
  assert (Hnd : NoDup (flat_map assigned evs)).
  { vm_compute. constructor.
    - intros [H|[]]. discriminate H.
    - constructor; [intros [] | constructor]. }
  split; [exact Hnd|].
  exact (proj1 (ids_unique_when_draws_distinct evs Hnd)).
Defined.

End Identity.

(* ================================================================= *)
(** * The dashboard *)

Section DashboardFacts.
Import FileContext Dashboard.

Lemma sum_sizes_from (fs : list CloudFile.t) :
  forall a : N,
    fold_left (fun acc f => (acc + CloudFile.size f)%N) fs a
    = (a + fold_left (fun acc f => (acc + CloudFile.size f)%N) fs 0)%N.
Proof.
  induction fs as [|f fs IH]; intros a; simpl.
  - lia.
  - rewrite IH, (IH (CloudFile.size f)). lia.
Qed.

Lemma totalSize_cons f fs :
  totalSize (getFileStats (f :: fs))
  = (CloudFile.size f + totalSize (getFileStats fs))%N.
Proof. simpl. now rewrite sum_sizes_from. Qed.

Lemma totalSize_app fs fs' :
  totalSize (getFileStats (fs ++ fs'))
  = (totalSize (getFileStats fs) + totalSize (getFileStats fs'))%N.
Proof.
  induction fs as [|f fs IH]; [reflexivity|].
  change ((f :: fs) ++ fs')%list with (f :: (fs ++ fs'))%list.
  rewrite !totalSize_cons, IH. lia.
Qed.

Lemma kind_counts fs :
  videoFiles (getFileStats fs) + audioFiles (getFileStats fs)
  + pdfFiles (getFileStats fs) = length fs.
Proof.
  induction fs as [|f fs IH]; simpl in *; [reflexivity|].
  destruct (CloudFile.type f); simpl; lia.
Qed.

Lemma removeFile_unique fs f :
  NoDup (map CloudFile.id fs) -> In f fs ->
  exists before after,
    fs = (before ++ f :: after)%list /\
    removeFile fs (CloudFile.id f) = (before ++ after)%list.
Proof.
  intros Hnd Hin. apply in_split in Hin. destruct Hin as (before & after & ->).
  exists before, after. split; [reflexivity|].
  rewrite map_app in Hnd. simpl in Hnd.
  pose proof (NoDup_remove_2 _ _ _ Hnd) as Hnot.
  unfold removeFile. rewrite filter_app. simpl.
  rewrite String.eqb_refl. simpl. f_equal.
  - apply forallb_filter_id, forallb_forall. intros g Hg.
    apply negb_true_iff, String.eqb_neq. intros E. apply Hnot.
    apply in_or_app. left. rewrite <- E. now apply in_map.
  - apply forallb_filter_id, forallb_forall. intros g Hg.
    apply negb_true_iff, String.eqb_neq. intros E. apply Hnot.
    apply in_or_app. right. rewrite <- E. now apply in_map.
Qed.

(** X1: the three counts of [getFileStats] add up to the number of files,
    and each is the number of files the files page shows for that kind with
    an empty search text. *)
Theorem getFileStats_counts (toLowerCase : string -> string)
  (files : list CloudFile.t) :
  toLowerCase "" = "" ->
  videoFiles (getFileStats files) + audioFiles (getFileStats files)
  + pdfFiles (getFileStats files) = length files /\
  videoFiles (getFileStats files)
  = length (FilesPage.filteredFiles toLowerCase files "" (only video)) /\
  audioFiles (getFileStats files)
  = length (FilesPage.filteredFiles toLowerCase files "" (only audio)) /\
  pdfFiles (getFileStats files)
  = length (FilesPage.filteredFiles toLowerCase files "" (only pdf)).
Proof.
  intros Hempty. split; [apply kind_counts|].
  assert (H : forall k,
             FilesPage.filteredFiles toLowerCase files "" (only k)
             = filter (fun f => FileKind_eqb (CloudFile.type f) k) files).
  { intros k. unfold FilesPage.filteredFiles. apply filter_ext. intros f.
    rewrite (matchesSearch_empty toLowerCase Hempty). reflexivity. }
  rewrite !H. repeat split.
Qed.

Lemma getFileStats_counts_witness :
  let fs := [CloudFile.mk "a" "a.mp4" video 10 0 0 None;
             CloudFile.mk "b" "b.mp3" audio 20 1 5 None;
             CloudFile.mk "c" "c.mp4" video 30 2 9 None] in
  JsString.asciiLower "" = "" /\
  videoFiles (getFileStats fs) + audioFiles (getFileStats fs)
  + pdfFiles (getFileStats fs) = length fs.
Proof.
  intros fs. split; [reflexivity|].
  exact (proj1 (getFileStats_counts JsString.asciiLower fs eq_refl)).
Defined.

(** X2: the sizes are integers, and the sum [getFileStats] computes is
    exact, in the code as here, as long as it stays below 2^53.  In that
    range: [totalSize] after [addFile] is the total before plus the size of
    the new file; no file is larger than the total, and [removeFile] never
    raises it; when the ids of the catalog are distinct, removing a listed
    file lowers the total by exactly its size and the number of files by
    one. *)
Theorem getFileStats_after_add_and_delete (files : list CloudFile.t)
  (file : CloudFile.t) :
  (totalSize (getFileStats files) + CloudFile.size file < 2 ^ 53)%N ->
  totalSize (getFileStats (addFile files file))
  = (totalSize (getFileStats files) + CloudFile.size file)%N /\
  (forall f, In f files ->
     (CloudFile.size f <= totalSize (getFileStats files))%N) /\
  (forall id,
     (totalSize (getFileStats (removeFile files id))
      <= totalSize (getFileStats files))%N) /\
  (NoDup (map CloudFile.id files) -> In file files ->
     (totalSize (getFileStats (removeFile files (CloudFile.id file)))
      + CloudFile.size file = totalSize (getFileStats files))%N /\
     S (length (removeFile files (CloudFile.id file))) = length files).
Proof.
  intros _. split; [|split; [|split]].
  - unfold addFile. rewrite totalSize_app, totalSize_cons. simpl. lia.
  - induction files as [|g fs IH]; intros f Hin; [contradiction|].
    rewrite totalSize_cons. destruct Hin as [->|Hin]; [lia|].
    specialize (IH f Hin). lia.
  - intros id. induction files as [|g fs IH]; [simpl; lia|].
    unfold removeFile in *. cbn [filter].
    destruct (negb (CloudFile.id g =? id)%string);
      rewrite ?totalSize_cons; lia.
  - intros Hnd Hin.
    destruct (removeFile_unique files file Hnd Hin) as (b & a & Hfs & Hrm).
    rewrite Hrm. rewrite Hfs.
    rewrite !totalSize_app, totalSize_cons, !length_app. simpl. lia.
Qed.

Lemma getFileStats_after_add_and_delete_witness :
  let a := CloudFile.mk "a" "a.mp4" video 10 0 0 None in
  let b := CloudFile.mk "b" "b.mp3" audio 20 1 5 None in
  (totalSize (getFileStats (removeFile [a; b] "b")) + 20
   = totalSize (getFileStats [a; b]))%N /\
  S (length (removeFile [a; b] "b")) = length [a; b].
Proof.
  intros a b.
  apply (proj2 (proj2 (proj2
    (getFileStats_after_add_and_delete [a; b] b eq_refl)))).
  - simpl. constructor.
    + intros [H|[]]. discriminate H.
    + constructor; [intros [] | constructor].
  - right. left. reflexivity.
Defined.

(** X3: "Recent Files" shows the first five entries of the catalog, in
    catalog order, which are the oldest; the button "View All Files" shows
    exactly when some file is not among them.  Once five files are listed a
    newly added file is not shown; below five it is shown last. *)
Theorem recentFiles_oldest_five (files : list CloudFile.t) (file : CloudFile.t) :
  length (recentFiles files) = Nat.min 5 (length files) /\
  (exists rest, files = (recentFiles files ++ rest)%list) /\
  (showViewAll files = true <-> recentFiles files <> files) /\
  (5 <= length files -> recentFiles (addFile files file) = recentFiles files) /\
  (length files < 5 ->
     recentFiles (addFile files file) = addFile (recentFiles files) file).
Proof.
  unfold recentFiles, showViewAll, addFile.
  split; [apply length_firstn|].
  split; [exists (skipn 5 files); symmetry; apply firstn_skipn|].
  split; [|split].
  - rewrite Nat.ltb_lt. split.
    + intros Hlt E. apply (f_equal (@length _)) in E.
      rewrite length_firstn in E. lia.
    + intros Hne. destruct (Nat.le_gt_cases (length files) 5) as [Hle|Hgt];
        [|exact Hgt].
      elim Hne. now apply firstn_all2.
  - intros Hle. rewrite firstn_app.
    replace (5 - length files) with 0 by lia. simpl. apply app_nil_r.
  - intros Hlt. rewrite firstn_app.
    rewrite (firstn_all2 (n := 5) files) by lia.
    f_equal. apply firstn_all2. change (1 <= 5 - length files). lia.
Qed.

Lemma recentFiles_oldest_five_witness :
  let e n := CloudFile.mk "x" "x.pdf" pdf 1 n 0 None in
  recentFiles (addFile [e 0; e 1; e 2; e 3; e 4] (e 5))
  = recentFiles [e 0; e 1; e 2; e 3; e 4].
Proof.
  intros e.
  apply (proj1 (proj2 (proj2 (proj2
    (recentFiles_oldest_five [e 0; e 1; e 2; e 3; e 4] (e 5)))))).
  simpl. lia.
Defined.

End DashboardFacts.

(* ================================================================= *)
(** * Lookup in the catalog *)

Section Lookup.
Import FileContext.

Lemma getFile_some_split files id f :
  getFile files id = Some f <->
  exists before after,
    files = (before ++ f :: after)%list /\ CloudFile.id f = id /\
    forall g, In g before -> CloudFile.id g <> id.
Proof.
  unfold getFile. induction files as [|g files IH]; simpl.
  - split; [discriminate|]. intros (b & a & H & _). now destruct b.
  - destruct (String.eqb_spec (CloudFile.id g) id) as [E|E].
    + split.
      * intros H. injection H as <-. exists [], files. now repeat split.
      * intros (b & a & H & Hid & Hb). destruct b as [|g' b]; simpl in H.
        -- now injection H as ->.
        -- injection H as -> _. elim (Hb g' (or_introl eq_refl) E).
    + rewrite IH. split.
      * intros (b & a & -> & Hid & Hb). exists (g :: b), a.
        split; [reflexivity|]. split; [exact Hid|].
        intros g' [<-|Hg']; auto.
      * intros (b & a & H & Hid & Hb). destruct b as [|g' b]; simpl in H.
        -- injection H as -> _. contradiction.
        -- injection H as -> ->. exists b, a. split; [reflexivity|].
           split; [exact Hid|]. intros g Hg. apply Hb. now right.
Qed.

(** X4: [getFile] returns the first entry that carries the id, and nothing
    exactly when no entry carries it; removing another id or adding a file
    with another id does not change what it returns. *)
Theorem getFile_first_match (files : list CloudFile.t) (id : string) :
  (forall f, getFile files id = Some f <->
     exists before after,
       files = (before ++ f :: after)%list /\ CloudFile.id f = id /\
       forall g, In g before -> CloudFile.id g <> id) /\
  (getFile files id = None <-> forall g, In g files -> CloudFile.id g <> id) /\
  (forall id', id' <> id ->
     getFile (removeFile files id) id' = getFile files id') /\
  (forall file, CloudFile.id file <> id ->
     getFile (addFile files file) id = getFile files id).
Proof.
  split; [intros f; apply getFile_some_split|].
  split; [|split].
  - rewrite getFile_none_iff, in_map_iff. split.
    + intros H g Hg E. apply H. now exists g.
    + intros H (g & E & Hg). exact (H g Hg E).
  - intros id' Hne. unfold getFile, removeFile.
    induction files as [|g files IH]; simpl; [reflexivity|].
    destruct (String.eqb_spec (CloudFile.id g) id) as [E|E]; simpl.
    + destruct (String.eqb_spec (CloudFile.id g) id'); [congruence | exact IH].
    + now rewrite IH.
  - intros file Hne. unfold getFile, addFile.
    induction files as [|g files IH]; simpl.
    + destruct (String.eqb_spec (CloudFile.id file) id); [contradiction | reflexivity].
    + now rewrite IH.
Qed.

Lemma getFile_first_match_witness :
  let a := CloudFile.mk "a" "a.mp4" video 10 0 0 None in
  let b := CloudFile.mk "b" "b.mp3" audio 20 1 5 None in
  getFile (removeFile [a; b] "a") "b" = getFile [a; b] "b".
Proof.
  intros a b.
  apply (proj1 (proj2 (proj2 (getFile_first_match [a; b] "a")))).
  discriminate.
Defined.

End Lookup.

(* ================================================================= *)
(** * The filtered view and the catalog *)

Section ViewFacts.
Import FileContext FilesPage JsString.

Variable toLowerCase : string -> string.

Local Abbreviation view := (FilesPage.filteredFiles toLowerCase).
Local Abbreviation shown := (fun text filterType file =>
  FilesPage.matchesSearch toLowerCase text file
  && FilesPage.matchesFilter filterType file).

Lemma append_assoc (a b c : string) : (a ++ b) ++ c = a ++ (b ++ c).
Proof. induction a as [|x a IH]; simpl; [reflexivity | now rewrite IH]. Qed.

Lemma includes_trans s t u :
  includes s t = true -> includes t u = true -> includes s u = true.
Proof.
  rewrite !includes_iff. intros (b1 & a1 & ->) (b2 & a2 & ->).
  exists (b1 ++ b2), (a2 ++ a1). now rewrite !append_assoc.
Qed.

Lemma filter_filter {A : Type} (p q : A -> bool) (l : list A) :
  filter p (filter q l) = filter (fun a => q a && p a) l.
Proof.
  induction l as [|a l IH]; simpl; [reflexivity|].
  destruct (q a); simpl; [destruct (p a)|]; now rewrite IH.
Qed.

(** X5: the view is never longer than the catalog and filtering it again
    with the same text and filter changes nothing; the view of the catalog
    after [addFile] is the old view followed by the new file when the file
    matches, and the view after [removeFile] is the old view without the
    entries of that id; the view is empty exactly when no file matches. *)
Theorem filteredFiles_follows_catalog (files : list CloudFile.t)
  (text : string) (filterType : FilterType) (file : CloudFile.t) (id : string) :
  length (view files text filterType) <= length files /\
  view (view files text filterType) text filterType = view files text filterType /\
  view (addFile files file) text filterType
  = (view files text filterType
     ++ (if shown text filterType file then [file] else []))%list /\
  view (removeFile files id) text filterType
  = removeFile (view files text filterType) id /\
  (view files text filterType = [] <->
   forall f, In f files -> shown text filterType f = false).
Proof.
  unfold FilesPage.filteredFiles, addFile, removeFile.
  split; [apply filter_length_le|].
  split; [|split; [|split]].
  - rewrite filter_filter. apply filter_ext. intros f.
    now destruct (matchesSearch toLowerCase text f && matchesFilter filterType f).
  - rewrite filter_app. reflexivity.
  - rewrite !filter_filter. apply filter_ext. intros f. apply andb_comm.
  - split.
    + intros H f Hf.
      destruct (matchesSearch toLowerCase text f && matchesFilter filterType f)
        eqn:E; [|reflexivity].
      assert (Hin : In f (filter (fun file0 =>
                 matchesSearch toLowerCase text file0
                 && matchesFilter filterType file0) files))
        by (apply filter_In; now split).
      rewrite H in Hin. contradiction.
    + intros H. induction files as [|g fs IH]; [reflexivity|]. simpl.
      rewrite (H g (or_introl eq_refl)). apply IH.
      intros f Hf. apply H. now right.
Qed.

(** X6: narrowing the search.  When the lower-cased text is contained in
    the lower-cased new text, the new view is the old view filtered by the
    new text: typing more never brings a file back. *)
Theorem filteredFiles_narrowing (files : list CloudFile.t)
  (text text' : string) (filterType : FilterType) :
  includes (toLowerCase text') (toLowerCase text) = true ->
  view (view files text filterType) text' filterType = view files text' filterType /\
  (forall f, In f (view files text' filterType) -> In f (view files text filterType)) /\
  length (view files text' filterType) <= length (view files text filterType).
Proof.
  intros Hsub.
  assert (Himp : forall f, shown text' filterType f = true ->
                           shown text filterType f = true).
  { intros f. rewrite !andb_true_iff. intros [Hs Hf]. split; [|exact Hf].
    unfold matchesSearch in *. eapply includes_trans; eauto. }
  assert (E : view (view files text filterType) text' filterType
              = view files text' filterType).
  { unfold FilesPage.filteredFiles. rewrite filter_filter.
    apply filter_ext. intros f.
    destruct (shown text' filterType f) eqn:E'.
    - rewrite (Himp f E'). reflexivity.
    - apply andb_false_r. }
  split; [exact E|]. split.
  - intros f Hf. rewrite <- E in Hf. unfold FilesPage.filteredFiles in Hf at 1.
    now apply filter_In in Hf.
  - rewrite <- E. unfold FilesPage.filteredFiles at 1. apply filter_length_le.
Qed.

End ViewFacts.

Lemma filteredFiles_narrowing_witness :
  let report := CloudFile.mk "a" "Report.pdf" pdf 10 0 0 None in
  let clip := CloudFile.mk "c" "Repeat.mp4" video 30 2 9 None in
  FilesPage.filteredFiles JsString.asciiLower
    (FilesPage.filteredFiles JsString.asciiLower [report; clip] "rep" all)
    "REPO" all
  = FilesPage.filteredFiles JsString.asciiLower [report; clip] "REPO" all.
Proof.
  intros report clip.
  apply (proj1 (filteredFiles_narrowing JsString.asciiLower
                  [report; clip] "rep" "REPO" all eq_refl)).
Defined.

(* ================================================================= *)
(** * The play and mute flags *)

Section FlagFacts.
Import FilesPage.

(** X7: [togglePlay] touches the flag of that file only and negates what
    the flag counts as; the first toggle of a file that has no flag sets it
    to [true]; two toggles restore what every flag counts as; toggles of two
    files commute; after [onPause] a toggle gives playing, after [onPlay] not
    playing.  [toggleMute] is the same function on the other cell. *)
Theorem toggle_flags (fileId : string) (flags : Flags) :
  (forall k, k <> fileId -> togglePlay fileId flags k = flags k) /\
  truthy (togglePlay fileId flags fileId) = negb (truthy (flags fileId)) /\
  (flags fileId = None -> togglePlay fileId flags fileId = Some true) /\
  (forall k, truthy (togglePlay fileId (togglePlay fileId flags) k)
             = truthy (flags k)) /\
  (forall other, other <> fileId ->
     forall k, togglePlay fileId (togglePlay other flags) k
               = togglePlay other (togglePlay fileId flags) k) /\
  truthy (togglePlay fileId (onPause fileId flags) fileId) = true /\
  truthy (togglePlay fileId (onPlay fileId flags) fileId) = false /\
  (forall k, toggleMute fileId flags k = togglePlay fileId flags k).
Proof.
  unfold togglePlay, toggleMute, onPlay, onPause, setFlag.
  repeat split.
  - intros k Hk. apply String.eqb_neq in Hk. now rewrite Hk.
  - rewrite String.eqb_refl. now destruct (truthy (flags fileId)).
  - intros H. now rewrite String.eqb_refl, H.
  - intros k. destruct (String.eqb_spec k fileId) as [->|Hk].
    + rewrite !String.eqb_refl.
      destruct (flags fileId) as [[|]|]; reflexivity.
    + reflexivity.
  - intros other Hne k.
    assert (E1 : (other =? fileId) = false) by now apply String.eqb_neq.
    assert (E2 : (fileId =? other) = false)
      by (apply String.eqb_neq; congruence).
    rewrite E1, E2.
    destruct (String.eqb_spec k fileId) as [->|Hk]; [|reflexivity].
    now rewrite E2.
  - now rewrite !String.eqb_refl.
  - now rewrite !String.eqb_refl.
Qed.

Lemma toggle_flags_witness :
  togglePlay "a" noFlags "a" = Some true.
Proof.
  apply (proj1 (proj2 (proj2 (toggle_flags "a" noFlags)))). reflexivity.
Defined.

End FlagFacts.

(* ================================================================= *)
(** * Staging a batch *)

Section Batches.
Import UploadPage Platform.

Lemma validFiles_toasts fs :
  forall w, toasts (snd (validFiles fs w)) = (toasts w ++ flat_map rejection fs)%list.
Proof.
  induction fs as [|file rest IH]; intros w; simpl.
  - now rewrite app_nil_r.
  - unfold bind.
    assert (H1 : toasts (snd (validFile file w)) = (toasts w ++ rejection file)%list).
    { unfold validFile, rejection. destruct (getFileType file); simpl.
      - destruct (maxSize <? File.size file)%N; simpl;
          [reflexivity | now rewrite app_nil_r].
      - reflexivity. }
    destruct (validFile file w) as [keep w1]. simpl in H1.
    specialize (IH w1). destruct (validFiles rest w1) as [rest' w2].
    simpl in *. now rewrite IH, H1, app_assoc.
Qed.

Lemma forEach_simulateUpload_toasts new :
  forall w, toasts (exec (forEach simulateUpload new) w) = toasts w.
Proof.
  induction new as [|uf rest IH]; intros w; [reflexivity|].
  unfold exec in *. simpl. unfold bind, simulateUpload, setInterval, ret. simpl.
  unfold bind. simpl. now rewrite IH.
Qed.

Lemma handleFiles_toasts fs ids w :
  toasts (exec (handleFiles fs ids) w) = (toasts w ++ flat_map rejection fs)%list.
Proof.
  unfold exec, handleFiles, bind.
  pose proof (validFiles_toasts fs w) as H.
  destruct (validFiles fs w) as [valid w1]. simpl in H.
  unfold setUploadingFiles.
  match goal with
  | |- toasts (snd (forEach simulateUpload ?n ?w2)) = _ =>
      pose proof (forEach_simulateUpload_toasts n w2) as H2
  end.
  unfold exec in H2. rewrite H2. simpl. exact H.
Qed.

Lemma rejection_accepts file :
  (rejection file = [] <-> accepts file = true) /\
  (accepts file = false -> exists t, rejection file = [t]).
Proof.
  unfold rejection, accepts. destruct (getFileType file).
  - destruct (maxSize <? File.size file)%N; simpl.
    + split; [split; discriminate | intros _; eauto].
    + split; [split; reflexivity | discriminate].
  - split; [split; discriminate | intros _; eauto].
Qed.

Lemma newUploadingFiles_files valid :
  forall ids, map UploadingFile.file (newUploadingFiles valid ids) = valid.
Proof.
  induction valid as [|file rest IH]; intros ids; simpl; [reflexivity|].
  now rewrite IH.
Qed.

Lemma newUploadingFiles_ids valid :
  forall ids, length valid <= length ids ->
    map UploadingFile.id (newUploadingFiles valid ids) = firstn (length valid) ids.
Proof.
  induction valid as [|file rest IH]; intros ids Hlen; simpl; [reflexivity|].
  destruct ids as [|i ids]; simpl in *; [lia|].
  rewrite IH by lia. reflexivity.
Qed.

(** X8: [handleFiles] shows one toast for each rejected file, in the order
    of the batch, the unsupported-type or the too-large one with the name of
    the file, and none for an accepted file: rejected and accepted files add
    up to the batch. *)
Theorem handleFiles_reports_each_rejection (fs : list File.t)
  (ids : list string) (w : World) :
  toasts (exec (handleFiles fs ids) w) = (toasts w ++ flat_map rejection fs)%list /\
  (forall file, rejection file = [] <-> accepts file = true) /\
  (forall file, accepts file = false ->
     rejection file = [UnsupportedFileType (File.name file)] \/
     rejection file = [FileTooLarge (File.name file)]) /\
  length (flat_map rejection fs) + length (filter accepts fs) = length fs.
Proof.
  split; [apply handleFiles_toasts|].
  split; [intros file; apply rejection_accepts|].
  split.
  - intros file. unfold rejection, accepts. destruct (getFileType file).
    + destruct (maxSize <? File.size file)%N; simpl; [now right | discriminate].
    + now left.
  - induction fs as [|file rest IH]; [reflexivity|]. simpl.
    rewrite length_app.
    destruct (accepts file) eqn:E.
    + apply rejection_accepts in E. rewrite E. simpl. lia.
    + destruct (proj2 (rejection_accepts file) E) as [t ->]. simpl. lia.
Qed.

(** X9: [handleFiles] appends one staging entry per accepted file, in the
    order of the batch, at progress 0 and uploading, with the drawn ids in
    order, and sets one timer per new entry, with the next handles, for the
    id of that entry; the catalog and the blob URLs are untouched.  When no
    file is accepted only the toasts change; an empty batch and a [null]
    selection change nothing, and a drop is [handleFiles]. *)
Theorem handleFiles_stages_accepted (fs : list File.t) (ids : list string)
  (w : World) :
  let w' := exec (handleFiles fs ids) w in
  let n := length (filter accepts fs) in
  (exists new,
     uploadingFiles w' = (uploadingFiles w ++ new)%list /\
     map UploadingFile.file new = filter accepts fs /\
     Forall (fun uf => UploadingFile.progress uf = 0%Q /\
                       UploadingFile.status uf = uploading) new /\
     (n <= length ids -> map UploadingFile.id new = firstn n ids) /\
     intervals w'
     = (intervals w
        ++ combine (seq (nextInterval w) n) (map UploadingFile.id new))%list) /\
  nextInterval w' = nextInterval w + n /\
  files w' = files w /\ objectURLs w' = objectURLs w /\ revoked w' = revoked w /\
  (n = 0 -> sameButToasts w w') /\
  exec (handleFiles [] ids) w = w /\
  exec (handleFileInput None ids) w = w /\
  exec (handleDrop fs ids) w = w'.
Proof.
  intros w' n.
  destruct (handleFiles_spec fs ids w) as (H1 & H2 & H3 & H4 & H5 & H6 & H7).
  fold w' in H1, H2, H3, H4, H5, H6, H7.
  assert (Hlen : length (newUploadingFiles (filter accepts fs) ids) = n).
  { rewrite <- (length_map UploadingFile.file), newUploadingFiles_files.
    reflexivity. }
  rewrite Hlen in H3, H4.
  split.
  { exists (newUploadingFiles (filter accepts fs) ids).
    split; [exact H1|]. split; [apply newUploadingFiles_files|].
    split.
    - eapply Forall_impl; [|apply newUploadingFiles_fresh, accepts_supported].
      simpl. tauto.
    - split; [intros Hn; now apply newUploadingFiles_ids | exact H3]. }
  split; [exact H4|]. split; [exact H2|]. split; [exact H5|].
  split; [exact H7|].
  split.
  { intros Hn. unfold sameButToasts.
    rewrite H1, H2, H3, H4, H5, H6, H7, Hn.
    assert (E : newUploadingFiles (filter accepts fs) ids = []).
    { destruct (newUploadingFiles (filter accepts fs) ids); [reflexivity|].
      simpl in Hlen. lia. }
    rewrite E. simpl. rewrite !app_nil_r, Nat.add_0_r. now repeat split. }
  split.
  { destruct w. unfold exec, handleFiles, bind, ret, setUploadingFiles. simpl.
    now rewrite app_nil_r. }
  split; reflexivity.
Qed.

End Batches.

(* ================================================================= *)
(** * One firing of a timer *)

Section Firings.
Import UploadPage Platform.

Lemma advance_toasts interval now r uf w :
  let w' := snd (advance interval now r uf w) in
  exists added,
    files w' = (files w ++ added)%list /\
    toasts w'
    = (toasts w ++ map (fun f => UploadComplete (CloudFile.name f)) added)%list /\
    Forall (fun f => CloudFile.uploadDate f = now /\
                     CloudFile.thumbnail f = None) added.
Proof.
  unfold advance. destruct (Qle_bool 100 _).
  - destruct (getFileType (UploadingFile.file uf)) as [k|]; simpl.
    + eexists [_]. split; [reflexivity|]. split; [reflexivity|].
      constructor; [now split | constructor].
    + exists []. rewrite !app_nil_r. now repeat split.
  - simpl. exists []. rewrite !app_nil_r. now repeat split.
Qed.

Lemma mapTick_toasts interval id now :
  forall prev rnd w,
    let w' := snd (mapTick interval id now rnd prev w) in
    exists added,
      files w' = (files w ++ added)%list /\
      toasts w'
      = (toasts w ++ map (fun f => UploadComplete (CloudFile.name f)) added)%list /\
      Forall (fun f => CloudFile.uploadDate f = now /\
                       CloudFile.thumbnail f = None) added.
Proof.
  induction prev as [|uf rest IH]; intros rnd w; simpl.
  - exists []. rewrite !app_nil_r. now repeat split.
  - destruct (UploadingFile.id uf =? id)%string; unfold bind.
    + pose proof (advance_toasts interval now (hd 0%Q rnd) uf w) as Ha.
      destruct (advance interval now (hd 0%Q rnd) uf w) as [uf' w1].
      simpl in Ha. destruct Ha as (a1 & Hf1 & Ht1 & Hall1).
      specialize (IH (tl rnd) w1).
      destruct (mapTick interval id now (tl rnd) rest w1) as [rest' w2].
      simpl in *. destruct IH as (a2 & Hf2 & Ht2 & Hall2).
      exists (a1 ++ a2)%list. split; [|split].
      * now rewrite Hf2, Hf1, app_assoc.
      * now rewrite Ht2, Ht1, map_app, app_assoc.
      * apply Forall_app. now split.
    + specialize (IH rnd w).
      destruct (mapTick interval id now rnd rest w) as [rest' w2].
      simpl in *. exact IH.
Qed.

(** X10: a firing of a timer shows exactly one "Upload Complete" toast per
    entry it adds to the catalog, in the same order and with the name of the
    entry, and stamps each added entry with the date of the firing, without a
    thumbnail. *)
Theorem firing_announces_each_completion (w : World) (interval : nat) (now : N)
  (rnd : list Q) :
  let w' := step w (Tick interval now rnd) in
  exists added,
    files w' = (files w ++ added)%list /\
    toasts w'
    = (toasts w ++ map (fun f => UploadComplete (CloudFile.name f)) added)%list /\
    Forall (fun f => CloudFile.uploadDate f = now /\
                     CloudFile.thumbnail f = None) added.
Proof.
  cbn [step]. destruct (target interval (intervals w)) as [id|].
  - unfold exec, tick.
    pose proof (mapTick_toasts interval id now (uploadingFiles w) rnd w) as H.
    destruct (mapTick interval id now rnd (uploadingFiles w) w) as [next w1].
    exact H.
  - exists []. rewrite !app_nil_r. now repeat split.
Qed.

Lemma newProgress_lt p r :
  isRandom r -> (Qmin (p + r * 15) 100 < p + 15)%Q.
Proof.
  intros [_ Hr]. apply Qle_lt_trans with (p + r * 15)%Q; [apply Q.le_min_l|].
  lra.
Qed.

Lemma mapTick_bound interval id now :
  forall prev rnd w,
    Forall isRandom rnd ->
    Forall2 (fun uf uf' =>
               (UploadingFile.progress uf' < UploadingFile.progress uf + 15)%Q)
            prev (fst (mapTick interval id now rnd prev w)).
Proof.
  induction prev as [|uf rest IH]; intros rnd w Hrnd; simpl; [constructor|].
  destruct (UploadingFile.id uf =? id)%string; unfold bind.
  - pose proof (isRandom_hd rnd Hrnd) as Hr.
    assert (Ha : (UploadingFile.progress (fst (advance interval now (hd 0%Q rnd) uf w))
                  < UploadingFile.progress uf + 15)%Q).
    { unfold advance.
      destruct (Qle_bool 100 (Qmin (UploadingFile.progress uf + hd 0%Q rnd * 15) 100))
        eqn:E.
      - apply Qle_bool_iff in E.
        destruct (getFileType (UploadingFile.file uf)); simpl;
          (eapply Qle_lt_trans; [exact E | now apply newProgress_lt]).
      - simpl. now apply newProgress_lt. }
    destruct (advance interval now (hd 0%Q rnd) uf w) as [uf' w1].
    specialize (IH (tl rnd) w1 (isRandom_tl rnd Hrnd)).
    destruct (mapTick interval id now (tl rnd) rest w1) as [rest' w2].
    simpl in *. now constructor.
  - specialize (IH rnd w Hrnd).
    destruct (mapTick interval id now rnd rest w) as [rest' w2].
    simpl in *. constructor; [lra | exact IH].
Qed.

(** X11: what a firing leaves alone.  Every staging entry keeps its file
    and its id, in place; an entry whose id is not the one of the timer and
    an entry that is completed are untouched.  The firing revokes no URL,
    keeps the registered ones, sets no timer, leaves every other timer as it
    is, and keeps the entries of the catalog in place. *)
Theorem firing_frame (w : World) (interval : nat) (now : N) (rnd : list Q) :
  reachable w -> enabled w (Tick interval now rnd) ->
  let w' := step w (Tick interval now rnd) in
  Forall2 (fun uf uf' =>
     UploadingFile.file uf' = UploadingFile.file uf /\
     UploadingFile.id uf' = UploadingFile.id uf /\
     (target interval (intervals w) <> Some (UploadingFile.id uf) -> uf' = uf) /\
     (UploadingFile.status uf = completed -> uf' = uf))
    (uploadingFiles w) (uploadingFiles w') /\
  revoked w' = revoked w /\
  (forall u, In u (objectURLs w) -> In u (objectURLs w')) /\
  nextInterval w' = nextInterval w /\
  (forall h, h <> interval ->
     target h (intervals w') = target h (intervals w)) /\
  (forall k f, nth_error (files w) k = Some f -> nth_error (files w') k = Some f).
Proof.
  intros Hreach Hen w'. subst w'.
  pose proof (reachable_Inv _ Hreach) as HI.
  cbn [step]. simpl in Hen. destruct Hen as [Hset Hrnd].
  destruct (target interval (intervals w)) as [id|] eqn:Et; [|congruence].
  destruct (tick_spec interval id now rnd w Hrnd (inv_staging _ HI))
    as (Hn & Hrv & Hiv & Hle & Hlive & (added & Hadd & _) & Hrel).
  split.
  { eapply Forall2_impl; [|exact Hrel]. simpl.
    intros uf uf' ((Hfile & Hid & _) & _ & Hne & Hst & _).
    split; [exact Hfile|]. split; [exact Hid|]. split; [|exact Hst].
    intros H. apply Hne. congruence. }
  split; [exact Hrv|]. split.
  { intros u Hu. rewrite Hlive. apply in_or_app. now left. }
  split; [exact Hn|]. split.
  { intros h Hh. destruct Hiv as [->| ->]; [reflexivity|].
    now apply target_cleared_other. }
  intros k f Hk. rewrite Hadd. rewrite nth_error_app1; [exact Hk|].
  apply nth_error_Some. congruence.
Qed.

Lemma firing_frame_witness :
  let clip := File.mk "a.mp4" "video/mp4" 10485760 in
  let w := run init [HandleFiles [clip] ["abc"]] in
  let w' := step w (Tick 0 1 [(1 # 2)%Q]) in
  reachable w /\ enabled w (Tick 0 1 [(1 # 2)%Q]) /\
  revoked w' = revoked w /\
  (forall u, In u (objectURLs w) -> In u (objectURLs w')).
Proof.
  intros clip w w'.
  assert (Hreach : reachable w).
  { apply reachable_session. vm_compute. reflexivity. }
  assert (Hen : enabled w (Tick 0 1 [(1 # 2)%Q])).
  { apply enabledb_sound. vm_compute. reflexivity. }
  split; [exact Hreach|]. split; [exact Hen|]. split.
  - exact (proj1 (proj2 (firing_frame w 0 1 [(1 # 2)%Q] Hreach Hen))).
  - exact (proj1 (proj2 (proj2 (firing_frame w 0 1 [(1 # 2)%Q] Hreach Hen)))).
Defined.

End Firings.

(* ================================================================= *)
(** * The first firings *)

Section EarlyFirings.
Import UploadPage Platform.

Lemma inject_nat_le n m :
  n <= m -> (inject_Z (Z.of_nat n) <= inject_Z (Z.of_nat m))%Q.
Proof. intros H. rewrite <- Zle_Qle. lia. Qed.

Lemma inject_nat_succ n :
  (inject_Z (Z.of_nat (S n)) == inject_Z (Z.of_nat n) + 1)%Q.
Proof. rewrite Nat2Z.inj_succ, <- Z.add_1_r, inject_Z_plus. reflexivity. Qed.

Lemma mapTick_idle interval id now :
  forall prev rnd w,
    Forall isRandom rnd ->
    Forall (fun uf => (UploadingFile.progress uf + 15 <= 100)%Q) prev ->
    snd (mapTick interval id now rnd prev w) = w /\
    Forall2 (fun uf uf' => UploadingFile.status uf' = UploadingFile.status uf)
            prev (fst (mapTick interval id now rnd prev w)).
Proof.
  induction prev as [|uf rest IH]; intros rnd w Hrnd Hroom; simpl.
  - split; [reflexivity | constructor].
  - inversion Hroom as [|? ? Huf Hrest]; subst.
    destruct (UploadingFile.id uf =? id)%string; unfold bind.
    + pose proof (isRandom_hd rnd Hrnd) as Hr.
      assert (E : Qle_bool 100
                    (Qmin (UploadingFile.progress uf + hd 0%Q rnd * 15) 100) = false).
      { destruct (Qle_bool 100 _) eqn:E; [|reflexivity].
        apply Qle_bool_iff in E.
        pose proof (newProgress_lt (UploadingFile.progress uf) _ Hr). lra. }
      rewrite (advance_progress _ _ _ _ _ E).
      destruct (IH (tl rnd) w (isRandom_tl rnd Hrnd) Hrest) as [H1 H2].
      destruct (mapTick interval id now (tl rnd) rest w) as [rest' w2].
      simpl in *. split; [exact H1 | now constructor].
    + destruct (IH rnd w Hrnd Hrest) as [H1 H2].
      destruct (mapTick interval id now rnd rest w) as [rest' w2].
      simpl in *. split; [exact H1 | now constructor].
Qed.

Lemma step_Young n w ev :
  Young n w -> enabled w ev ->
  n + firings [ev] <= 6 ->
  Young (n + firings [ev]) (step w ev).
Proof.
  intros (Hst & Hf & Hu) Hen Hn.
  destruct ev as [fs ids|interval now rnd|id|file]; cbn [step].
  - change (firings [HandleFiles fs ids]) with 0. rewrite Nat.add_0_r.
    destruct (handleFiles_spec fs ids w) as (H1 & H2 & _ & _ & H5 & _).
    unfold Young. rewrite H1, H2, H5. split; [|now split].
    apply Forall_app. split; [exact Hst|].
    eapply Forall_impl; [|apply newUploadingFiles_fresh, accepts_supported].
    simpl. intros uf (_ & -> & ->). split; [|reflexivity].
    pose proof (inject_nat_le 0 n (Nat.le_0_l n)) as H0.
    change (inject_Z (Z.of_nat 0)) with 0%Q in H0. lra.
  - change (firings [Tick interval now rnd]) with 1 in *.
    destruct Hen as [Hset Hrnd].
    destruct (target interval (intervals w)) as [id|] eqn:Et; [|congruence].
    assert (Hroom : Forall (fun uf => (UploadingFile.progress uf + 15 <= 100)%Q)
                           (uploadingFiles w)).
    { eapply Forall_impl; [|exact Hst]. simpl. intros uf [Hp _].
      pose proof (inject_nat_le n 5 ltac:(lia)) as H5.
      change (inject_Z (Z.of_nat 5)) with 5%Q in H5. lra. }
    destruct (mapTick_idle interval id now (uploadingFiles w) rnd w Hrnd Hroom)
      as [Hw Hsame].
    pose proof (mapTick_bound interval id now (uploadingFiles w) rnd w Hrnd) as Hb.
    unfold Young, exec, tick.
    destruct (mapTick interval id now rnd (uploadingFiles w) w) as [next w1].
    simpl in *. subst w1. split; [|now split].
    clear - Hst Hsame Hb.
    induction Hsame as [|uf uf' l l' Hs _ IH]; [constructor|].
    inversion Hb; subst. inversion Hst as [|? ? [Hp Hu] Hl]; subst.
    constructor; [|now apply IH].
    split; [|congruence].
    replace (n + 1) with (S n) by lia. rewrite inject_nat_succ. lra.
  - change (firings [RemoveUploading id]) with 0. rewrite Nat.add_0_r.
    unfold Young. simpl. split; [|now split].
    apply Forall_forall. intros uf Huf. apply filter_In in Huf.
    rewrite Forall_forall in Hst. now apply Hst.
  - simpl in Hen. rewrite Hf in Hen. contradiction.
Qed.

Lemma firings_cons ev evs : firings (ev :: evs) = firings [ev] + firings evs.
Proof. unfold firings. simpl. now destruct ev. Qed.

Lemma run_Young evs :
  forall n w,
    Young n w -> enabledAll w evs -> n + firings evs <= 6 ->
    Young (n + firings evs) (run w evs).
Proof.
  induction evs as [|ev evs IH]; intros n w HY Hen Hn.
  - change (firings []) with 0. now rewrite Nat.add_0_r.
  - destruct Hen as [Hev Hen]. rewrite firings_cons in *.
    rewrite Nat.add_assoc. apply IH; [|exact Hen | lia].
    apply step_Young; [exact HY | exact Hev | lia].
Qed.

(** X12: no upload completes in fewer than seven firings: in a session
    with at most six timer firings the catalog is empty and every staging
    entry is uploading, below 100. *)
Theorem no_completion_before_seven_firings (evs : list Event) :
  enabledAll init evs -> firings evs <= 6 ->
  files (run init evs) = [] /\
  completedCount (uploadingFiles (run init evs)) = 0 /\
  Forall (fun uf => UploadingFile.status uf = uploading /\
                    (UploadingFile.progress uf < 100)%Q)
         (uploadingFiles (run init evs)).
Proof.
  intros Hen Hn.
  assert (H0 : Young 0 init) by (repeat split; constructor).
  destruct (run_Young evs 0 init H0 Hen Hn) as (Hst & Hf & _).
  split; [exact Hf|].
  assert (Hall : Forall (fun uf => UploadingFile.status uf = uploading /\
                                   (UploadingFile.progress uf < 100)%Q)
                        (uploadingFiles (run init evs))).
  { eapply Forall_impl; [|exact Hst]. simpl. intros uf [Hp Hu].
    split; [exact Hu|].
    pose proof (inject_nat_le (firings evs) 6 Hn) as H6.
    change (inject_Z (Z.of_nat 6)) with 6%Q in H6. lra. }
  split; [|exact Hall].
  unfold completedCount. clear Hst.
  induction Hall as [|uf l [Hu _] _ IH]; [reflexivity|].
  simpl. rewrite Hu. exact IH.
Qed.

Lemma no_completion_before_seven_firings_witness :
  let clip := File.mk "a.mp4" "video/mp4" 10485760 in
  let draw := (29 # 30)%Q in
  let evs := [HandleFiles [clip] ["abc"];
              Tick 0 1 [draw]; Tick 0 2 [draw]; Tick 0 3 [draw];
              Tick 0 4 [draw]; Tick 0 5 [draw]; Tick 0 6 [draw]] in
  enabledAll init evs /\ firings evs <= 6 /\ files (run init evs) = [].
Proof.
  intros clip draw evs.
  assert (Hen : enabledAll init evs).
  { apply enabledAllb_sound. vm_compute. reflexivity. }
  assert (Hn : firings evs <= 6).
  { vm_compute. repeat constructor. }
  split; [exact Hen|]. split; [exact Hn|].
  exact (proj1 (no_completion_before_seven_firings evs Hen Hn)).
Defined.

End EarlyFirings.

(* ================================================================= *)
(** * Validated files *)

Section ValidatedFacts.
Import UploadPage Platform.

Lemma Forall2_Forall {A B : Type} (P : A -> Prop) (R : A -> B -> Prop)
  (P' : B -> Prop) l l' :
  (forall a b, P a -> R a b -> P' b) ->
  Forall P l -> Forall2 R l l' -> Forall P' l'.
Proof.
  intros H HP HR. induction HR; inversion HP; subst; constructor; eauto.
Qed.

Lemma accepts_iff file :
  accepts file = true <->
  getFileType file <> None /\ (File.size file <= maxSize)%N.
Proof.
  unfold accepts. destruct (getFileType file).
  - rewrite negb_true_iff, N.ltb_ge. split; [intros H; split; [discriminate | exact H] | tauto].
  - split; [discriminate | intros [H _]; congruence].
Qed.

Lemma step_Validated w ev :
  Inv w -> Validated w -> enabled w ev -> Validated (step w ev).
Proof.
  intros HI [Hst Hfs] Hen.
  destruct ev as [fs ids|interval now rnd|id|file]; cbn [step].
  - destruct (handleFiles_spec fs ids w) as (H1 & H2 & _).
    unfold Validated. rewrite H1, H2. split; [|exact Hfs].
    apply Forall_app. split; [exact Hst|].
    pose proof (newUploadingFiles_fresh (filter accepts fs) ids
                  (accepts_supported fs)) as Hnew.
    assert (Hfiles : Forall (fun file => accepts file = true)
              (map UploadingFile.file (newUploadingFiles (filter accepts fs) ids))).
    { assert (E : forall valid i,
                map UploadingFile.file (newUploadingFiles valid i) = valid).
      { induction valid as [|x v IHv]; intros i; simpl; [reflexivity|].
        now rewrite IHv. }
      rewrite E. apply Forall_forall. intros file Hin.
      now apply filter_In in Hin. }
    rewrite Forall_map in Hfiles.
    rewrite Forall_forall in Hnew, Hfiles. apply Forall_forall. intros uf Huf.
    split; [now apply Hfiles|].
    destruct (Hnew uf Huf) as (_ & -> & _). intros _. reflexivity.
  - destruct Hen as [Hset Hrnd].
    destruct (target interval (intervals w)) as [id|] eqn:Et; [|congruence].
    destruct (tick_spec interval id now rnd w Hrnd (inv_staging _ HI))
      as (_ & _ & _ & _ & _ & (added & Hadd & _ & Hall) & Hrel).
    assert (Hst' : Forall (fun uf => accepts (UploadingFile.file uf) = true /\
                      (UploadingFile.status uf = uploading ->
                       (UploadingFile.progress uf < 100)%Q))
                     (uploadingFiles (exec (tick interval id now rnd) w))).
    { eapply Forall2_Forall; [|exact Hst | exact Hrel]. simpl.
      intros uf uf' [Hacc Hlow] ((Hfile & _) & _ & Hne & _ & Hcomp).
      split; [now rewrite Hfile|].
      destruct (string_dec (UploadingFile.id uf) id) as [E|E].
      - destruct (Hcomp E) as [(Hlt & _)|(Hdn & _)].
        + intros _. exact Hlt.
        + intros Hu. congruence.
      - now rewrite (Hne E). }
    split; [exact Hst'|].
    rewrite Hadd. apply Forall_app. split; [exact Hfs|].
    eapply Forall_impl; [|exact Hall]. simpl.
    intros f (uf' & Hin & _ & _ & _ & (_ & Hname & Hsize & Hty & _)).
    rewrite Forall_forall in Hst'. destruct (Hst' uf' Hin) as [Hacc _].
    exists (UploadingFile.file uf'). now repeat split.
  - unfold Validated. simpl. split; [|exact Hfs].
    apply Forall_forall. intros uf Huf. apply filter_In in Huf.
    rewrite Forall_forall in Hst. now apply Hst.
  - unfold Validated. simpl. split; [exact Hst|].
    apply Forall_forall. intros f Hf. apply in_removeFile in Hf.
    rewrite Forall_forall in Hfs. now apply Hfs.
Qed.

Lemma reachable_Validated w : reachable w -> Validated w.
Proof.
  induction 1 as [|w ev Hw IH Hen].
  - split; constructor.
  - apply step_Validated; [now apply reachable_Inv | exact IH | exact Hen].
Qed.

(** X13: every catalog entry of a session has the name, kind and size of a
    file that passed validation, so its size is at most 50 MiB, and the total
    size the dashboard shows is at most 50 MiB times the number of files. *)
Theorem catalog_entries_within_limit (w : World) :
  reachable w ->
  Forall (fun f => (CloudFile.size f <= maxSize)%N /\
                   exists file,
                     CloudFile.name f = File.name file /\
                     CloudFile.size f = File.size file /\
                     getFileType file = Some (CloudFile.type f))
         (files w) /\
  (Dashboard.totalSize (Dashboard.getFileStats (files w))
   <= maxSize * N.of_nat (length (files w)))%N.
Proof.
  intros Hreach. destruct (reachable_Validated w Hreach) as [_ Hfs].
  assert (Hall : Forall (fun f => (CloudFile.size f <= maxSize)%N /\
                   exists file,
                     CloudFile.name f = File.name file /\
                     CloudFile.size f = File.size file /\
                     getFileType file = Some (CloudFile.type f)) (files w)).
  { eapply Forall_impl; [|exact Hfs]. simpl.
    intros f (file & Hacc & Hname & Hsize & Hty).
    apply accepts_iff in Hacc. split; [rewrite Hsize; tauto|].
    now exists file. }
  split; [exact Hall|]. clear Hfs.
  induction Hall as [|f l [Hf _] _ IH]; [simpl; lia|].
  rewrite totalSize_cons. simpl length.
  rewrite Nat2N.inj_succ, N.mul_succ_r. lia.
Qed.

Lemma catalog_entries_within_limit_witness :
  let clip := File.mk "a.mp4" "video/mp4" 10485760 in
  let draw := (29 # 30)%Q in
  let w := run init [HandleFiles [clip] ["abc"];
                     Tick 0 1 [draw]; Tick 0 2 [draw]; Tick 0 3 [draw];
                     Tick 0 4 [draw]; Tick 0 5 [draw]; Tick 0 6 [draw];
                     Tick 0 7 [draw]] in
  reachable w /\
  (Dashboard.totalSize (Dashboard.getFileStats (files w))
   <= maxSize * N.of_nat (length (files w)))%N.
Proof.
  intros clip draw w.
  assert (Hreach : reachable w).
  { apply reachable_session. vm_compute. reflexivity. }
  split; [exact Hreach|].
  exact (proj2 (catalog_entries_within_limit w Hreach)).
Defined.

(** X14: in a session a staging entry is completed exactly when its
    progress is 100, and uploading exactly when it is below 100; the count
    "n of m files completed" is the number of entries at 100 and never
    exceeds the number of rows. *)
Theorem completed_exactly_at_100 (w : World) :
  reachable w ->
  (forall uf, In uf (uploadingFiles w) ->
     (UploadingFile.status uf = completed <->
      (100 <= UploadingFile.progress uf)%Q) /\
     (UploadingFile.status uf = uploading <->
      (UploadingFile.progress uf < 100)%Q)) /\
  completedCount (uploadingFiles w)
  = length (filter (fun uf => Qle_bool 100 (UploadingFile.progress uf))
                   (uploadingFiles w)) /\
  completedCount (uploadingFiles w) <= length (uploadingFiles w).
Proof.
  intros Hreach.
  destruct (reachable_Validated w Hreach) as [Hst _].
  pose proof (inv_staging _ (reachable_Inv _ Hreach)) as Hok.
  assert (Hall : forall uf, In uf (uploadingFiles w) ->
     (UploadingFile.status uf = completed <->
      (100 <= UploadingFile.progress uf)%Q) /\
     (UploadingFile.status uf = uploading <->
      (UploadingFile.progress uf < 100)%Q)).
  { intros uf Huf. rewrite Forall_forall in Hst, Hok.
    destruct (Hst uf Huf) as [_ Hlow].
    destruct (Hok uf Huf) as (_ & _ & Herr & Hdone & _).
    destruct (UploadingFile.status uf) eqn:E.
    - specialize (Hlow eq_refl).
      split; [split; [discriminate | intros H; lra]
             | split; [intros _; exact Hlow | reflexivity]].
    - rewrite (Hdone eq_refl).
      split; [split; [intros _; lra | reflexivity]
             | split; [discriminate | intros H; lra]].
    - elim Herr. reflexivity. }
  split; [exact Hall|]. split.
  - unfold completedCount. f_equal. apply filter_ext_in. intros uf Huf.
    destruct (Hall uf Huf) as [[H1 H2] _].
    destruct (Qle_bool 100 (UploadingFile.progress uf)) eqn:E.
    + apply Qle_bool_iff in E. now rewrite (H2 E).
    + destruct (UploadingFile.status uf); try reflexivity.
      specialize (H1 eq_refl). apply Qle_bool_iff in H1. congruence.
  - apply filter_length_le.
Qed.

Lemma completed_exactly_at_100_witness :
  let clip := File.mk "a.mp4" "video/mp4" 10485760 in
  let w := run init [HandleFiles [clip] ["abc"]; Tick 0 1 [(1 # 2)%Q]] in
  reachable w /\ completedCount (uploadingFiles w) <= length (uploadingFiles w).
Proof.
  intros clip w.
  assert (Hreach : reachable w).
  { apply reachable_session. vm_compute. reflexivity. }
  split; [exact Hreach|].
  exact (proj2 (proj2 (completed_exactly_at_100 w Hreach))).
Defined.

End ValidatedFacts.

(* ================================================================= *)
(** * Timers of the entries that are uploading *)

Section DrivenFacts.
Import UploadPage Platform.

Lemma map_fst_combine_seq {A B : Type} (g : A -> B) (l : list A) :
  forall n, map fst (combine (seq n (length l)) (map g l)) = seq n (length l).
Proof.
  induction l as [|a l IH]; intros n; simpl; [reflexivity|]. now rewrite IH.
Qed.

Lemma in_target interval id ts :
  NoDup (map fst ts) -> In (interval, id) ts -> target interval ts = Some id.
Proof.
  induction ts as [|[h i] ts IH]; simpl; [contradiction|].
  intros Hnd Hin. inversion Hnd as [|? ? Hh Hts]; subst.
  destruct Hin as [E|Hin].
  - injection E as -> ->. now rewrite Nat.eqb_refl.
  - destruct (Nat.eqb_spec h interval) as [->|_]; [|now apply IH].
    elim Hh. apply (in_map fst) in Hin. exact Hin.
Qed.

Lemma advance_cleared_reason interval now r uf w :
  intervals (snd (advance interval now r uf w)) = intervals w \/
  (intervals (snd (advance interval now r uf w)) = cleared interval (intervals w) /\
   UploadingFile.status (fst (advance interval now r uf w)) = completed).
Proof.
  unfold advance. destruct (Qle_bool 100 _); [|now left].
  right. now destruct (getFileType (UploadingFile.file uf)).
Qed.

Lemma mapTick_cleared_reason interval id now :
  forall prev rnd w,
    let r := mapTick interval id now rnd prev w in
    intervals (snd r) = intervals w \/
    (intervals (snd r) = cleared interval (intervals w) /\
     exists uf', In uf' (fst r) /\ UploadingFile.id uf' = id /\
                 UploadingFile.status uf' = completed).
Proof.
  induction prev as [|uf rest IH]; intros rnd w; simpl; [now left|].
  destruct (String.eqb_spec (UploadingFile.id uf) id) as [Hid|Hid]; unfold bind.
  - pose proof (advance_cleared_reason interval now (hd 0%Q rnd) uf w) as Ha.
    pose proof (advance_id interval now (hd 0%Q rnd) uf w) as Hi.
    destruct (advance interval now (hd 0%Q rnd) uf w) as [uf' w1].
    specialize (IH (tl rnd) w1).
    destruct (mapTick interval id now (tl rnd) rest w1) as [rest' w2].
    simpl in *.
    destruct Ha as [E1|[E1 Hdn]], IH as [E2|[E2 (x & Hx & Hxid & Hxdn)]].
    + left. congruence.
    + right. split; [congruence|]. exists x. split; [now right | now split].
    + right. split; [congruence|]. exists uf'. split; [now left|].
      split; [congruence | exact Hdn].
    + right. split; [rewrite E2, E1; apply cleared_idem|].
      exists uf'. split; [now left|]. split; [congruence | exact Hdn].
  - specialize (IH rnd w).
    destruct (mapTick interval id now rnd rest w) as [rest' w2].
    simpl in *. destruct IH as [E|[E (x & Hx & Hxid & Hxdn)]]; [now left|].
    right. split; [exact E|]. exists x. split; [now right | now split].
Qed.

Lemma step_Driven used w ev :
  Inv w -> IdsOk used w -> Driven w -> enabled w ev -> Driven (step w ev).
Proof.
  intros HI (S1 & _ & T1 & _) [Hnd Hdr] Hen.
  destruct ev as [fs ids|interval now rnd|id|file]; cbn [step].
  - destruct (handleFiles_spec fs ids w) as (H1 & _ & H3 & _).
    unfold Driven. rewrite H1, H3, !map_app, map_fst_combine_seq,
      map_snd_combine_seq'.
    split.
    + apply NoDup_app; [exact Hnd | apply seq_NoDup |].
      intros h Hh Hh'. apply in_seq in Hh'. apply in_map_iff in Hh.
      destruct Hh as [t [<- Ht]].
      pose proof (inv_intervals _ HI) as Hlt. rewrite Forall_forall in Hlt.
      apply Hlt in Ht. lia.
    + intros uf Huf Hu. apply in_or_app. apply in_app_or in Huf.
      destruct Huf as [Huf|Huf]; [left; now apply Hdr | right; now apply in_map].
  - destruct Hen as [Hset Hrnd].
    destruct (target interval (intervals w)) as [id|] eqn:Et; [|congruence].
    destruct (tick_spec interval id now rnd w Hrnd (inv_staging _ HI))
      as (_ & _ & Hiv & _ & _ & _ & Hrel).
    pose proof (mapTick_cleared_reason interval id now (uploadingFiles w) rnd w)
      as Hwhy.
    pose proof (mapTick_ids interval id now (uploadingFiles w) rnd w) as Hids.
    assert (Hnext : uploadingFiles (exec (tick interval id now rnd) w)
                    = fst (mapTick interval id now rnd (uploadingFiles w) w) /\
                    intervals (exec (tick interval id now rnd) w)
                    = intervals (snd (mapTick interval id now rnd (uploadingFiles w) w))).
    { unfold exec, tick.
      now destruct (mapTick interval id now rnd (uploadingFiles w) w). }
    destruct Hnext as [Hnext Hnexti]. simpl in Hwhy.
    rewrite <- Hnext, <- Hnexti in Hwhy. rewrite <- Hnext in Hids.
    set (w' := exec (tick interval id now rnd) w) in *.
    split.
    + destruct Hiv as [->| ->]; [exact Hnd | now apply NoDup_map_filter].
    + intros uf' Huf' Hu.
      destruct (Forall2_In_r _ _ _ _ Hrel Huf')
        as [uf [Huf ((_ & Hsame & _) & _ & Hne & _ & Hcomp)]].
      assert (Hwas : UploadingFile.status uf = uploading).
      { destruct (string_dec (UploadingFile.id uf) id) as [E|E].
        - destruct (Hcomp E) as [(_ & Hs & _)|(Hdn & _)]; congruence.
        - rewrite (Hne E) in Hu. exact Hu. }
      pose proof (Hdr uf Huf Hwas) as Hin. rewrite <- Hsame in Hin.
      destruct Hwhy as [E|[E (x & Hx & Hxid & Hxdn)]]; [now rewrite E|].
      assert (Hother : UploadingFile.id uf' <> id).
      { intros Eid.
        assert (x = uf').
        { apply (NoDup_map_eq UploadingFile.id (uploadingFiles w')); auto.
          - now rewrite Hids.
          - congruence. }
        subst x. congruence. }
      rewrite E. apply in_map_iff in Hin. destruct Hin as [[h i] [Hi Hin]].
      simpl in Hi. subst i. apply in_map_iff. exists (h, UploadingFile.id uf').
      split; [reflexivity|]. apply filter_In. split; [exact Hin|].
      apply negb_true_iff, Nat.eqb_neq. simpl. intros ->.
      apply Hother. apply target_some_in in Et.
      assert (Epair : (interval, UploadingFile.id uf') = (interval, id))
        by (apply (NoDup_map_eq fst (intervals w)); auto).
      now injection Epair.
  - unfold Driven. simpl. split; [exact Hnd|].
    intros uf Huf. apply filter_In in Huf. now apply Hdr.
  - unfold Driven. simpl. now split.
Qed.

Lemma run_Driven evs :
  forall used w,
    Inv w -> IdsOk used w -> Driven w -> enabledAll w evs ->
    NoDup (used ++ flat_map assigned evs) ->
    Driven (run w evs).
Proof.
  induction evs as [|ev evs IH]; intros used w HI Hok Hdr Hen Hnd; [exact Hdr|].
  destruct Hen as [Hev Hen]. simpl in Hnd. rewrite app_assoc in Hnd.
  apply (IH (used ++ assigned ev)%list).
  - now apply step_Inv.
  - apply step_IdsOk; [exact Hok|]. eapply NoDup_app_remove_r. exact Hnd.
  - eapply step_Driven; eauto.
  - exact Hen.
  - exact Hnd.
Qed.

(** X15: in a session whose drawn ids are pairwise distinct no upload is
    stuck: for every entry that is still uploading a timer is set for its id,
    and that timer can fire. *)
Theorem uploading_entry_has_timer (evs : list Event) :
  enabledAll init evs -> NoDup (flat_map assigned evs) ->
  let w := run init evs in
  forall uf, In uf (uploadingFiles w) ->
             UploadingFile.status uf = uploading ->
             exists interval,
               target interval (intervals w) = Some (UploadingFile.id uf) /\
               forall now rnd, Forall isRandom rnd ->
                               enabled w (Tick interval now rnd).
Proof.
  intros Hen Hnd w uf Huf Hu.
  assert (Hdr : Driven w).
  { apply (run_Driven evs [] init); auto.
    - apply init_Inv.
    - apply init_IdsOk.
    - split; [constructor | contradiction]. }
  destruct Hdr as [Hfst Hdr].
  pose proof (Hdr uf Huf Hu) as Hin. apply in_map_iff in Hin.
  destruct Hin as [[h i] [Hi Hin]]. simpl in Hi. subst i.
  exists h. pose proof (in_target _ _ _ Hfst Hin) as Ht.
  split; [exact Ht|]. intros now rnd Hrnd. simpl. rewrite Ht.
  split; [discriminate | exact Hrnd].
Qed.

Lemma uploading_entry_has_timer_witness :
  let clip := File.mk "a.mp4" "video/mp4" 10485760 in
  let song := File.mk "b.mp3" "audio/mpeg" 2048 in
  let evs := [HandleFiles [clip; song] ["abc"; "xyz"]; Tick 0 1 [(1 # 2)%Q]] in
  enabledAll init evs /\ NoDup (flat_map assigned evs) /\
  exists interval, target interval (intervals (run init evs)) = Some "xyz".
Proof.
  intros clip song evs.
  assert (Hen : enabledAll init evs).
  { apply enabledAllb_sound. vm_compute. reflexivity. }
  assert (Hnd : NoDup (flat_map assigned evs)).
  { vm_compute. constructor.
    - intros [H|[]]. discriminate H.
    - constructor; [intros [] | constructor]. }
  split; [exact Hen|]. split; [exact Hnd|].
  destruct (uploading_entry_has_timer evs Hen Hnd
              (UploadingFile.mk song 0%Q uploading "xyz")) as [h [Hh _]].
  - vm_compute. right. left. reflexivity.
  - reflexivity.
  - exists h. exact Hh.
Defined.

End DrivenFacts.

(* ================================================================= *)
(** * Cancelled uploads and blob URLs *)

Section Cancellation.
Import UploadPage Platform.

Lemma step_Gone id w ev :
  Gone id w -> ~ In id (assigned ev) -> Gone id (step w ev).
Proof.
  intros [Hst Hfs] Hfresh. split.
  - destruct ev as [fs ids|interval now rnd|id'|file]; cbn [step].
    + destruct (handleFiles_spec fs ids w) as (H1 & _). rewrite H1.
      intros uf Huf E. apply in_app_or in Huf. destruct Huf as [Huf|Huf].
      * exact (Hst uf Huf E).
      * apply Hfresh. simpl. rewrite <- E. now apply in_map.
    + destruct (target interval (intervals w)) as [i|]; [|exact Hst].
      destruct (tick_ids interval i now rnd w) as (Hids & _).
      intros uf Huf E. apply (in_map UploadingFile.id) in Huf.
      rewrite Hids in Huf. apply in_map_iff in Huf.
      destruct Huf as [uf0 [E0 Huf0]]. apply (Hst uf0 Huf0). congruence.
    + simpl. intros uf Huf. apply filter_In in Huf. now apply Hst.
    + exact Hst.
  - intros f Hf. destruct (step_files_origin w ev f Hf) as [Hold|[uf [Huf E]]].
    + now apply Hfs.
    + rewrite E. now apply Hst.
Qed.

Lemma run_Gone id evs :
  forall w, Gone id w -> ~ In id (flat_map assigned evs) -> Gone id (run w evs).
Proof.
  induction evs as [|ev evs IH]; intros w Hg Hfresh; [exact Hg|].
  simpl in *. apply IH.
  - apply step_Gone; [exact Hg|]. intros H. apply Hfresh. apply in_or_app. now left.
  - intros H. apply Hfresh. apply in_or_app. now right.
Qed.

Lemma run_app w evs evs' : run w (evs ++ evs') = run (run w evs) evs'.
Proof. unfold run. apply fold_left_app. Qed.

(** X16: in a session whose drawn ids are pairwise distinct, once
    [removeFile] is called on the upload page for an id that is not in the
    catalog, no catalog entry and no staging entry with that id appears,
    whatever happens afterwards. *)
Theorem cancelled_upload_never_reaches_catalog (evs evs' : list Event)
  (id : string) :
  NoDup (flat_map assigned (evs ++ RemoveUploading id :: evs')) ->
  enabled (run init evs) (RemoveUploading id) ->
  (forall f, In f (files (run init evs)) -> CloudFile.id f <> id) ->
  let w := run init (evs ++ RemoveUploading id :: evs') in
  (forall f, In f (files w) -> CloudFile.id f <> id) /\
  (forall uf, In uf (uploadingFiles w) -> UploadingFile.id uf <> id).
Proof.
  intros Hnd Hen Hfs w. subst w.
  rewrite flat_map_app in Hnd. simpl in Hnd.
  rewrite run_app. change (run (run init evs) (RemoveUploading id :: evs'))
    with (run (step (run init evs) (RemoveUploading id)) evs').
  destruct (run_IdsOk evs [] init init_IdsOk (NoDup_app_remove_r _ _ Hnd))
    as (_ & S2 & _).
  simpl in S2.
  assert (Hused : In id (flat_map assigned evs)).
  { destruct Hen as [uf [Huf <-]]. apply S2. now apply in_map. }
  assert (Hfresh : ~ In id (flat_map assigned evs')).
  { intros H. apply in_split in Hused. destruct Hused as (u1 & u2 & E).
    rewrite E, <- app_assoc in Hnd. simpl in Hnd.
    apply NoDup_remove_2 in Hnd. apply Hnd.
    apply in_or_app. right. apply in_or_app. now right. }
  assert (Hg : Gone id (step (run init evs) (RemoveUploading id))).
  { split; [|exact Hfs]. simpl. intros uf Huf. apply filter_In in Huf.
    destruct Huf as [_ Hne]. now apply negb_true_iff, String.eqb_neq in Hne. }
  destruct (run_Gone id evs' _ Hg Hfresh) as [H1 H2]. now split.
Qed.

Lemma cancelled_upload_never_reaches_catalog_witness :
  let clip := File.mk "a.mp4" "video/mp4" 10485760 in
  let evs := [HandleFiles [clip] ["abc"]; Tick 0 1 [(1 # 2)%Q]] in
  let evs' := [Tick 0 2 [(1 # 2)%Q]] in
  NoDup (flat_map assigned (evs ++ RemoveUploading "abc" :: evs')) /\
  enabled (run init evs) (RemoveUploading "abc") /\
  forall f, In f (files (run init (evs ++ RemoveUploading "abc" :: evs'))) ->
            CloudFile.id f <> "abc".
Proof.
  intros clip evs evs'.
  assert (Hnd : NoDup (flat_map assigned (evs ++ RemoveUploading "abc" :: evs'))).
  { vm_compute. constructor; [intros [] | constructor]. }
  assert (Hen : enabled (run init evs) (RemoveUploading "abc")).
  { apply enabledb_sound. vm_compute. reflexivity. }
  assert (Hfs : forall f, In f (files (run init evs)) -> CloudFile.id f <> "abc").
  { vm_compute. contradiction. }
  split; [exact Hnd|]. split; [exact Hen|].
  exact (proj1 (cancelled_upload_never_reaches_catalog evs evs' "abc" Hnd Hen Hfs)).
Defined.

(** X17: in a session the blob URL of every listed file is registered and
    was never revoked, distinct listed files have distinct URLs, no URL is
    revoked twice, and no registered URL is a revoked one. *)
Theorem listed_files_have_live_urls (w : World) :
  reachable w ->
  (forall f, In f (files w) ->
     In (CloudFile.url f) (objectURLs w) /\ ~ In (CloudFile.url f) (revoked w)) /\
  NoDup (map CloudFile.url (files w)) /\
  (forall f g, In f (files w) -> In g (files w) ->
     CloudFile.url f = CloudFile.url g -> f = g) /\
  NoDup (revoked w) /\
  (forall u, In u (objectURLs w) -> ~ In u (revoked w)).
Proof.
  intros Hreach. pose proof (reachable_Inv _ Hreach) as HI.
  split; [|split; [|split; [|split]]].
  - intros f Hf. pose proof (inv_files _ HI) as H. rewrite Forall_forall in H.
    destruct (H f Hf) as (_ & H1 & H2). now split.
  - apply (inv_urls _ HI).
  - intros f g Hf Hg E. eapply NoDup_map_eq; eauto. apply (inv_urls _ HI).
  - apply (inv_revoked_once _ HI).
  - clear HI. induction Hreach as [|w ev Hw IH Hen]; [contradiction|].
    pose proof (reachable_Inv _ Hw) as HI.
    destruct ev as [fs ids|interval now rnd|id|file]; cbn [step].
    + destruct (handleFiles_spec fs ids w) as (_ & _ & _ & _ & H5 & _ & H7).
      rewrite H5, H7. exact IH.
    + destruct Hen as [Hset Hrnd].
      destruct (target interval (intervals w)) as [id|] eqn:Et; [|congruence].
      destruct (tick_spec interval id now rnd w Hrnd (inv_staging _ HI))
        as (_ & Hrv & _ & Hle & Hlive & _).
      rewrite Hrv, Hlive. intros u Hu Hr. apply in_app_or in Hu.
      destruct Hu as [Hu|Hu]; [exact (IH u Hu Hr)|].
      apply in_seq in Hu. pose proof (inv_revoked _ HI) as Hlt.
      rewrite Forall_forall in Hlt. apply Hlt in Hr. lia.
    + exact IH.
    + simpl. intros u Hu Hr. apply filter_In in Hu. destruct Hu as [Hu Hne].
      apply negb_true_iff, Nat.eqb_neq in Hne.
      apply in_app_or in Hr. destruct Hr as [Hr|[Hr|[]]]; [exact (IH u Hu Hr)|].
      congruence.
Qed.

Lemma listed_files_have_live_urls_witness :
  let clip := File.mk "a.mp4" "video/mp4" 10485760 in
  let w := run init [HandleFiles [clip] ["abc"]; Tick 0 1 [(1 # 2)%Q]] in
  reachable w /\ NoDup (map CloudFile.url (files w)).
Proof.
  intros clip w.
  assert (Hreach : reachable w).
  { apply reachable_session. vm_compute. reflexivity. }
  split; [exact Hreach|].
  exact (proj1 (proj2 (listed_files_have_live_urls w Hreach))).
Defined.

End Cancellation.

(* ================================================================= *)
(** * The empty view *)

Section EmptyView.
Import FilesPage.

Variable toLowerCase : string -> string.
Hypothesis toLowerCase_empty : toLowerCase "" = "".

(** X18: when the view is empty the page says "Upload your first file"
    exactly when the catalog is empty and neither a search text nor a kind
    filter is set; it shows the grid exactly when the view is not empty; when
    it says to adjust the criteria, a text or a filter is set and no file of
    the catalog matches. *)
Theorem emptyHint_upload_first_only_when_empty (files : list CloudFile.t)
  (text : string) (filterType : FilterType) :
  let hint := emptyHint (filteredFiles toLowerCase files text filterType)
                        text filterType in
  (hint = Some UploadFirst <-> files = [] /\ text = "" /\ filterType = all) /\
  (hint = None <-> filteredFiles toLowerCase files text filterType <> []) /\
  (files = [] -> hint <> None) /\
  (hint = Some AdjustCriteria ->
     (text <> "" \/ filterType <> all) /\
     forall f, In f files ->
       matchesSearch toLowerCase text f && matchesFilter filterType f = false).
Proof.
  intros hint. subst hint. unfold emptyHint.
  split; [|split; [|split]].
  - split.
    + destruct (filteredFiles toLowerCase files text filterType) eqn:E;
        [|discriminate].
      destruct (String.eqb_spec text "") as [->|Ht]; simpl.
      * destruct filterType; [|discriminate]. intros _.
        rewrite (filteredFiles_all_empty toLowerCase toLowerCase_empty) in E.
        now repeat split.
      * discriminate.
    + intros (-> & -> & ->). reflexivity.
  - destruct (filteredFiles toLowerCase files text filterType);
      split; try discriminate; congruence.
  - intros ->. simpl. discriminate.
  - destruct (filteredFiles toLowerCase files text filterType) eqn:E;
      [|discriminate].
    intros H. split.
    + destruct (String.eqb_spec text "") as [->|Ht]; [|now left].
      destruct filterType; [discriminate H|]. right. discriminate.
    + intros f Hf.
      destruct (matchesSearch toLowerCase text f && matchesFilter filterType f)
        eqn:Es; [|reflexivity].
      assert (Hin : In f (filteredFiles toLowerCase files text filterType)).
      { unfold filteredFiles. apply filter_In. now split. }
      rewrite E in Hin. contradiction.
Qed.

End EmptyView.

Lemma emptyHint_upload_first_only_when_empty_witness :
  JsString.asciiLower "" = "" /\
  (FilesPage.emptyHint (FilesPage.filteredFiles JsString.asciiLower [] "" all) "" all
   = Some FilesPage.UploadFirst <-> @nil CloudFile.t = [] /\ "" = "" /\ all = all).
Proof.
  split; [reflexivity|].
  exact (proj1 (emptyHint_upload_first_only_when_empty
                  JsString.asciiLower eq_refl [] "" all)).
Defined.
